(** * prefect-init: the initialization workflow of [src/cli/__init__.py]

    A shallow embedding of the command-line module: the scoped environment
    override [modified_environ], the template copy [copy_template_files],
    the working-directory guard [ChangeDirectory] and the orchestrator
    [init], together with the properties of the specification that concern
    them.

    The process state the module acts on (environment variables, current
    working directory, file system) is threaded explicitly through a small
    state-and-exception monad; Python's [try/except], [try/finally] and
    [with] are combinators of that monad. *)

From stdpp Require Import gmap strings list fin_maps.

Open Scope string_scope.
Open Scope list_scope.

(** ** Data *)

(** A path is the list of its components below the root. *)
Abbreviation path := (list string).

(** A TOML document as [toml.load] returns it: a [dict] from keys to
    values. A Python [dict] keeps insertion order, so a table is an
    association list. *)
#[warnings="-register-all"]
Inductive value :=
| VString (s : string)
| VInteger (z : Z)
| VBoolean (b : bool)
| VArray (items : list value)
| VTable (fields : list (string * value)).

Abbreviation table := (list (string * value)).

(** What a regular file holds: text, or a TOML document in its parsed
    form. [toml.load] of a [Doc d] is [d] and [toml.dump d] writes
    [Doc d]; [Text] is text that is not TOML. *)
Inductive content :=
| Text (s : string)
| Doc (d : table).

Inductive entry :=
| EDir
| EFile (c : content).

Inductive open_mode := ModeR | ModeW.

(** What the process does to the outside, in order. A child process is
    recorded with its arguments, the environment and directory it
    inherits, and its exit status ([None] when the program could not be
    started). *)
Inductive event :=
| EvSpawn (argv : list string) (env : gmap string string) (dir : path)
          (returncode : option Z)
| EvChdir (target : path)
| EvCopytree (dst : path)
| EvOpen (file : path) (mode : open_mode)
| EvPrint (name : string) (dir : path).

(** The state of the process. [os.environ] is a finite map from names to
    values, compared as a mapping. The file system maps the paths the
    process can reach to what is there: a directory that is missing and
    one that the process cannot enter are both absent from it. *)
Record world := World {
  environ : gmap string string;    (* os.environ *)
  cwd : path;                      (* the current working directory *)
  fs : gmap path entry;            (* the file system the process sees *)
  trace : list event;
}.

Definition set_environ (e : gmap string string) (w : world) : world :=
  World e (cwd w) (fs w) (trace w).
Definition set_cwd (p : path) (w : world) : world :=
  World (environ w) p (fs w) (trace w).
Definition set_fs (f : gmap path entry) (w : world) : world :=
  World (environ w) (cwd w) f (trace w).
Definition log (ev : event) (w : world) : world :=
  World (environ w) (cwd w) (fs w) (trace w ++ [ev]).

(** The exceptions the module can meet. *)
Inductive exn :=
| CalledProcessError (returncode : Z) (cmd : list string)
| OSError (p : path)
| ShutilError (errors : list path)
| TomlDecodeError
| KeyError (k : string)
| TypeError
| Exit (code : Z).

Inductive result (A : Type) :=
| Ret (a : A)
| Raise (e : exn).
Arguments Ret {A} a.
Arguments Raise {A} e.

(** ** The monad *)

Definition M (A : Type) : Type := world → result A * world.

Definition ret {A} (a : A) : M A := λ w, (Ret a, w).
Definition raise {A} (e : exn) : M A := λ w, (Raise e, w).

Definition bind {A B} (m : M A) (k : A → M B) : M B :=
  λ w, match m w with
       | (Ret a, w1) => k a w1
       | (Raise e, w1) => (Raise e, w1)
       end.

(** The sequencing notations [x ← m; k] and [m;; k] are those of the
    monad classes. *)
#[export] Instance M_ret : MRet M := @ret.
#[export] Instance M_bind : MBind M := λ A B k m, bind m k.

(** [try: body finally: fin]. [fin] runs on both exits; the outcome of
    [body] stands unless [fin] raises itself. *)
Definition try_finally {A} (body : M A) (fin : M unit) : M A :=
  λ w, let '(r, w1) := body w in
       match fin w1 with
       | (Ret _, w2) => (r, w2)
       | (Raise e, w2) => (Raise e, w2)
       end.

(** [try: body except C: handler], where [catches] says which exceptions
    are instances of [C]. *)
Definition try_except {A} (body : M A) (catches : exn → bool)
    (handler : M A) : M A :=
  λ w, match body w with
       | (Raise e, w1) => if catches e then handler w1 else (Raise e, w1)
       | rw => rw
       end.

(** [with cm: body] for a context manager given by its [__enter__] and
    [__exit__]. [__exit__] is called only when [__enter__] returned, and
    here it never swallows the exception of the body. *)
Definition with_ {S A} (enter : M S) (exit : S → M unit) (body : M A) : M A :=
  s ← enter; try_finally body (exit s).

Fixpoint for_ {A} (l : list A) (f : A → M unit) : M unit :=
  match l with
  | [] => ret tt
  | x :: l' => f x;; for_ l' f
  end.

(** ** [os.environ] *)

(** [env.update(d)]: every key of [d] is set, the other keys stay. *)
Definition env_update (d : gmap string string) : M unit :=
  λ w, (Ret tt, set_environ (d ∪ environ w) w).

(** [env.pop(k, None)] *)
Definition env_pop (k : string) : M unit :=
  λ w, (Ret tt, set_environ (delete k (environ w)) w).

(** [os.environ.get(k)] *)
Definition env_get (k : string) : M (option string) :=
  λ w, (Ret (environ w !! k), w).

(** [os.environ[k] = v] *)
Definition env_set (k v : string) : M unit :=
  λ w, (Ret tt, set_environ (<[k:=v]> (environ w)) w).

(** ** [modified_environ] *)

(** [stomped = (set(update.keys()) | set(remove)) & set(env.keys())] *)
Definition stomped (remove : list string) (update env : gmap string string)
    : gset string :=
  (dom update ∪ list_to_set remove) ∩ dom env.

(** [update_after = {k: env[k] for k in stomped}] *)
Definition update_after (remove : list string)
    (update env : gmap string string) : gmap string string :=
  filter (λ kv, kv.1 ∈ stomped remove update env) env.

(** [remove_after = frozenset(k for k in update if k not in env)] *)
Definition remove_after (update env : gmap string string) : gset string :=
  filter (λ k, env !! k = None) (dom update).

(** The statements of the [try] block before the [yield]. *)
Definition modified_environ_enter (remove : list string)
    (update : gmap string string) : M unit :=
  env_update update;; for_ remove env_pop.

(** The [finally] block. *)
Definition modified_environ_exit (upd_after : gmap string string)
    (rem_after : gset string) : M unit :=
  env_update upd_after;; for_ (elements rem_after) env_pop.

(** [with modified_environ(...): body], with the positional arguments
    in [remove] and the keyword arguments in [update]. *)
Definition modified_environ {A} (remove : list string)
    (update : gmap string string) (body : M A) : M A :=
  λ w, let env := environ w in
       let upd_after := update_after remove update env in
       let rem_after := remove_after update env in
       try_finally (modified_environ_enter remove update;; body)
                   (modified_environ_exit upd_after rem_after) w.

(** ** Files and directories *)

Definition is_dir (f : gmap path entry) (p : path) : bool :=
  match f !! p with
  | Some EDir => true
  | _ => false
  end.

(** [pathlib.Path.cwd()] *)
Definition getcwd : M path := λ w, (Ret (cwd w), w).

(** [os.chdir(p)]: fails, and changes nothing, unless [p] is a directory
    the process can enter. *)
Definition chdir (p : path) : M unit :=
  λ w, let w1 := log (EvChdir p) w in
       if is_dir (fs w) p then (Ret tt, set_cwd p w1)
       else (Raise (OSError p), w1).

(** Creation of a directory and of its missing ancestors, tolerating the
    ones that exist ([Path.mkdir(exist_ok=True, parents=True)] and
    [os.makedirs(p, exist_ok=True)]): walks down from [base] along
    [rest]; [None] when a regular file is in the way. *)
Fixpoint makedirs_from (base rest : path) (f : gmap path entry)
    : option (gmap path entry) :=
  match f !! base with
  | Some (EFile _) => None
  | o =>
      let f1 := match o with None => <[base:=EDir]> f | _ => f end in
      match rest with
      | [] => Some f1
      | n :: rest' => makedirs_from (base ++ [n]) rest' f1
      end
  end.

Definition makedirs (p : path) (f : gmap path entry)
    : option (gmap path entry) :=
  makedirs_from [] p f.

(** [destination.mkdir(exist_ok=True, parents=True)] *)
Definition mkdir (p : path) : M unit :=
  λ w, match makedirs p (fs w) with
       | Some f => (Ret tt, set_fs f w)
       | None => (Raise (OSError p), w)
       end.

(** A source tree that is only read: the template directory. *)
#[warnings="-register-all"]
Inductive tree :=
| File (text : string)
| Dir (children : list (string * tree)).

(** [shutil.copy2] of a file with the given text to [dst]: an existing
    file is overwritten, a directory at [dst] is an error. *)
Definition copy2 (text : string) (dst : path) (f : gmap path entry)
    : gmap path entry * list path :=
  match f !! dst with
  | Some EDir => (f, [dst])
  | _ => (<[dst:=EFile (Text text)]> f, [])
  end.

(** The loop of [shutil.copytree] over the entries of a directory: the
    errors of the entries are collected and the loop goes on. *)
Fixpoint copy_entries (copy : tree → path → gmap path entry →
                              gmap path entry * list path)
    (children : list (string * tree)) (dst : path) (f : gmap path entry)
    : gmap path entry * list path :=
  match children with
  | [] => (f, [])
  | (n, t) :: rest =>
      let '(f1, e1) := copy t (dst ++ [n]) f in
      let '(f2, e2) := copy_entries copy rest dst f1 in
      (f2, e1 ++ e2)
  end.

(** One entry: a directory is copied by the recursive call of
    [copytree(..., dirs_exist_ok=True)], whose failure to create [dst] is
    one more collected error; a file is copied by [copy2]. *)
Fixpoint copy_node (t : tree) (dst : path) (f : gmap path entry)
    : gmap path entry * list path :=
  match t with
  | File text => copy2 text dst f
  | Dir children =>
      match makedirs dst f with
      | None => (f, [dst])
      | Some f1 => copy_entries copy_node children dst f1
      end
  end.

(** [shutil.copytree(source, destination, dirs_exist_ok=True)] *)
Definition copytree (source : tree) (destination : path) : M unit :=
  λ w, let w1 := log (EvCopytree destination) w in
       match source with
       | File _ => (Raise (OSError destination), w1)
       | Dir children =>
           match makedirs destination (fs w1) with
           | None => (Raise (OSError destination), w1)
           | Some f1 =>
               match copy_entries copy_node children destination f1 with
               | (f2, []) => (Ret tt, set_fs f2 w1)
               | (f2, errors) => (Raise (ShutilError errors), set_fs f2 w1)
               end
           end
       end.

(** ** [copy_template_files] *)

Definition nl : string := String (Ascii.ascii_of_nat 10) "".
Definition unlines (ls : list string) : string :=
  foldr (λ l acc, l +:+ nl +:+ acc) "" ls.

(** [TEMPLATE_DIRECTORY / "default"] *)
Definition default_template : tree :=
  Dir [("src", Dir [
    ("tasks", Dir [("hello.py", File (unlines [
       "from prefect import task"; ""; "";
       "@task";
       "def hello(name: str) -> str:";
       "    return f'Hello {name}!'"]))]);
    ("flows", Dir [("hello_world.py", File (unlines [
       "from prefect import flow";
       "from tasks.hello import hello";
       "import asyncio"; ""; "";
       "@flow";
       "async def hello_world(names: list[str] = ['Ford Prefect', 'Marvin']) -> list[str]:";
       "    return hello.map(names).result()"; ""; "";
       "if __name__ == '__main__':";
       "    asyncio.run(hello_world())"]))])])].

Definition copy_template_files (destination : path) (source : tree)
    : M unit :=
  mkdir destination;;
  copytree source destination.

(** ** [ChangeDirectory] *)

Record ChangeDirectory := {
  new_path : path;
  previous_path : path;
}.

(** [__init__] *)
Definition ChangeDirectory_init (p : path) : M ChangeDirectory :=
  here ← getcwd;
  mret {| new_path := p; previous_path := here |}.

(** [__enter__]: returns [self], with [previous_path] set anew. *)
Definition ChangeDirectory_enter (self : ChangeDirectory)
    : M ChangeDirectory :=
  here ← getcwd;
  let self := {| new_path := new_path self; previous_path := here |} in
  chdir (new_path self);;
  mret self.

(** [__exit__]: returns [None], so the exception of the body goes on. *)
Definition ChangeDirectory_exit (self : ChangeDirectory) : M unit :=
  chdir (previous_path self).

(** [with ChangeDirectory(p): body] *)
Definition with_ChangeDirectory {A} (p : path) (body : M A) : M A :=
  cd ← ChangeDirectory_init p;
  with_ (ChangeDirectory_enter cd) ChangeDirectory_exit body.

(** ** The project manifest *)

(** [d.get(k)] and [d[k] = v] on a [dict]: assignment to a key that is
    present keeps its place, a new key goes to the end. *)
Fixpoint dict_get (k : string) (d : table) : option value :=
  match d with
  | [] => None
  | (k', v) :: d' => if decide (k = k') then Some v else dict_get k d'
  end.

Fixpoint dict_set (k : string) (v : value) (d : table) : table :=
  match d with
  | [] => [(k, v)]
  | (k', v') :: d' =>
      if decide (k = k') then (k, v) :: d' else (k', v') :: dict_set k v d'
  end.

(** [d[k1][k2] = v]: [d[k1]] is looked up and must be a [dict]. *)
Definition dict_set_in (k1 k2 : string) (v : value) (d : table) : M table :=
  match dict_get k1 d with
  | Some (VTable inner) =>
      mret (dict_set k1 (VTable (dict_set k2 v inner)) d)
  | Some _ => raise TypeError
  | None => raise (KeyError k1)
  end.

(** The value a dotted key such as [tool.prefect] leads to. *)
Fixpoint get_path (ks : list string) (v : value) : option value :=
  match ks with
  | [] => Some v
  | k :: ks' =>
      match v with
      | VTable d =>
          match dict_get k d with
          | Some v' => get_path ks' v'
          | None => None
          end
      | _ => None
      end
  end.

(** [open(name, 'r')], [name] relative to the working directory. The
    file object is modelled by the path it reads. *)
Definition open_r (name : string) : M path :=
  λ w, let p := cwd w ++ [name] in
       let w1 := log (EvOpen p ModeR) w in
       match fs w !! p with
       | Some (EFile _) => (Ret p, w1)
       | _ => (Raise (OSError p), w1)
       end.

(** [open(name, 'w')]: truncates the file, or creates it in the working
    directory. *)
Definition open_w (name : string) : M path :=
  λ w, let p := cwd w ++ [name] in
       let w1 := log (EvOpen p ModeW) w in
       let truncated := set_fs (<[p:=EFile (Text "")]> (fs w)) w1 in
       match fs w !! p with
       | Some EDir => (Raise (OSError p), w1)
       | Some (EFile _) => (Ret p, truncated)
       | None =>
           if is_dir (fs w) (cwd w) then (Ret p, truncated)
           else (Raise (OSError p), w1)
       end.

(** [toml.load(f)] *)
Definition toml_load (f : path) : M table :=
  λ w, match fs w !! f with
       | Some (EFile (Doc d)) => (Ret d, w)
       | _ => (Raise TomlDecodeError, w)
       end.

(** [toml.dump(d, f)] *)
Definition toml_dump (d : table) (f : path) : M unit :=
  λ w, (Ret tt, set_fs (<[f:=EFile (Doc d)]> (fs w)) w).

Definition prefect_settings : value :=
  VTable [("home", VString "./.prefect");
          ("profiles_path", VString "./.prefect/profiles.toml")].

(** The manifest patch of [init]: the [with open('pyproject.toml', 'r')]
    block. *)
Definition patch_pyproject : M unit :=
  f ← open_r "pyproject.toml";
  pyproject ← toml_load f;
  let pyproject := dict_set "tool" (VTable []) pyproject in
  pyproject ← dict_set_in "tool" "prefect" prefect_settings pyproject;
  f ← open_w "pyproject.toml";
  toml_dump pyproject f.

(** ** The console *)

(** [with console.status(...): body] shows a spinner around [body]. *)
Definition console_status {A} (body : M A) : M A :=
  with_ (mret tt) (λ _, mret tt) body.

(** [console.print(f"... Created {name} at {pathlib.Path.cwd()}")] *)
Definition console_print_success (name : string) : M unit :=
  λ w, (Ret tt, log (EvPrint name (cwd w)) w).

(** ** [init] *)

Definition is_CalledProcessError (e : exn) : bool :=
  match e with
  | CalledProcessError _ _ => true
  | _ => false
  end.

Definition uv_init (name : string) : list string :=
  ["uv"; "init"; name; "--lib"; "--no-workspace"; "--quiet"; "--no-readme"].
Definition uv_add : list string :=
  ["uv"; "add"; "prefect"; "--no-active"].
Definition uv_add_offline : list string :=
  ["uv"; "add"; "prefect"; "--offline"; "--no-cache"; "--frozen"].

Section Init.

(** The programs the module starts are not part of it. [spawn argv env
    dir f] is what running [argv] with environment [env] in directory
    [dir] does to the file system [f], and the exit status; [None] when
    the program cannot be started. A child can change neither the
    environment nor the working directory of its parent. *)
Variable spawn : list string → gmap string string → path →
                 gmap path entry → option (Z * gmap path entry).

(** [subprocess.run(argv, check=True)] *)
Definition subprocess_run (argv : list string) : M unit :=
  λ w, match spawn argv (environ w) (cwd w) (fs w) with
       | None =>
           (Raise (OSError (take 1 argv)),
            log (EvSpawn argv (environ w) (cwd w) None) w)
       | Some (code, f) =>
           let w1 := log (EvSpawn argv (environ w) (cwd w) (Some code))
                         (set_fs f w) in
           if decide (code = 0%Z) then (Ret tt, w1)
           else (Raise (CalledProcessError code argv), w1)
       end.

(** The project creation of [init]: the first [try] statement. *)
Definition create_project (name : string) : M unit :=
  try_except
    (modified_environ [] {["UV_VENV_SEED" := "True"]}
       (subprocess_run (uv_init name)))
    is_CalledProcessError
    (raise (Exit 1)).

(** The dependency installation of [init]: the [console.status]
    block. *)
Definition install_prefect : M unit :=
  console_status
    (try_except (subprocess_run uv_add)
       is_CalledProcessError
       (subprocess_run uv_add_offline)).

(** The body of the [with ChangeDirectory(...)] block of [init]. *)
Definition init_in_project (name : string) : M unit :=
  here ← getcwd;
  copy_template_files here default_template;;
  install_prefect;;
  patch_pyproject;;
  console_print_success name.

(** [init(name)]; [name] is one path component, the directory that
    [uv init] is asked to create in the working directory. *)
Definition init (name : string) : M unit :=
  create_project name;;
  here ← getcwd;
  with_ChangeDirectory (here ++ [name]) (init_in_project name).

End Init.

(** The exit status of the command: [typer.Exit(code)] ends the process
    with [code], any other exception that escapes ends it with status 1. *)
Definition exit_status {A} (r : result A) : Z :=
  match r with
  | Ret _ => 0
  | Raise (Exit code) => code
  | Raise _ => 1
  end.

(** * Notions used in the statements *)

(** The environment after [env.pop(k, None)] for every [k] of a list. *)
Definition pop_all (ks : list string) (env : gmap string string)
    : gmap string string :=
  foldl (λ e k, delete k e) env ks.

(** The environment the body of the scope starts in. *)
Definition env_inside (remove : list string)
    (update env : gmap string string) : gmap string string :=
  pop_all remove (update ∪ env).

(** The environment after the [finally] block, when the scope was
    entered in [env0] and its body left [env]. *)
Definition env_restored (remove : list string)
    (update env0 env : gmap string string) : gmap string string :=
  pop_all (elements (remove_after update env0))
          (update_after remove update env0 ∪ env).

(** Sibling names are distinct at every level of a source tree, as they
    are in a directory. *)
Fixpoint wf_tree (t : tree) : bool :=
  match t with
  | File _ => true
  | Dir children =>
      bool_decide (NoDup children.*1)
      && forallb (λ c, wf_tree c.2) children
  end.

(** [base] and every directory on the way down to [base ++ rest] is a
    directory of the file system. *)
Fixpoint dirs_from (base rest : path) (f : gmap path entry) : bool :=
  is_dir f base
  && match rest with
     | [] => true
     | n :: rest' => dirs_from (base ++ [n]) rest' f
     end.

(** [p] is a directory of the file system, as all its ancestors are. *)
Definition dir_exists (p : path) (f : gmap path entry) : bool :=
  dirs_from [] p f.

(** Nothing exists below [p]. *)
Definition empty_below (p : path) (f : gmap path entry) : Prop :=
  map_Forall (λ q _, p `prefix_of` q → q = p) f.

(** Every proper ancestor of [p] is a directory. *)
Definition above (p : path) (f : gmap path entry) : Prop :=
  ∀ q, q `prefix_of` p → q ≠ p → f !! q = Some EDir.

(** Nothing exists at [p] or below it. *)
Definition vacant (p : path) (f : gmap path entry) : Prop :=
  ∀ q, p `prefix_of` q → f !! q = None.

(** What one entry needs to be copied without an error, and what it
    leaves alone. *)
Definition copies_cleanly (t : tree) : Prop :=
  ∀ q f, wf_tree t = true → above q f → vacant q f →
    ∃ f', copy_node t q f = (f', [])
          ∧ ∀ p, ¬ q `prefix_of` p → f' !! p = f !! p.

(** * Sample runs *)

(** A process in [/home] with two variables set. *)
Definition sample_world : world :=
  World {[ "PATH" := "/usr/bin"; "HOME" := "/home/u" ]}
        ["home"]
        {[ [] := EDir; ["home"] := EDir ]}
        [].

(** A manifest with a [tool.other] table, and a [tool.prefect] table
    with other values than the ones [init] writes. *)
Definition manifest_with_other : table :=
  [("project", VTable [("name", VString "demo")]);
   ("tool", VTable [("other", VTable [("level", VInteger 3)]);
                    ("prefect", VTable [("home", VString "/elsewhere");
                                        ("debug", VBoolean true)])])].

(** A process in the project directory [/home/demo], which is empty but
    for that manifest. *)
Definition project_world : world :=
  World {[ "PATH" := "/usr/bin" ]}
        ["home"; "demo"]
        {[ [] := EDir; ["home"] := EDir; ["home"; "demo"] := EDir;
           ["home"; "demo"; "pyproject.toml"] :=
             EFile (Doc manifest_with_other) ]}
        [].

(** A process above the empty directory [/home/demo]. *)
Definition empty_project_world : world :=
  World {[ "PATH" := "/usr/bin" ]}
        ["home"]
        {[ [] := EDir; ["home"] := EDir; ["home"; "demo"] := EDir ]}
        [].

(** A package manager without network: [uv init] creates the project
    directory and its manifest, every [uv add] fails. *)
Definition spawn_offline (argv : list string) (env : gmap string string)
    (dir : path) (f : gmap path entry) : option (Z * gmap path entry) :=
  match argv with
  | "uv" :: "init" :: name :: _ =>
      Some (0%Z,
            <[dir ++ [name; "pyproject.toml"] :=
                EFile (Doc [("project", VTable [("name", VString name)])])]>
              (<[dir ++ [name] := EDir]> f))
  | "uv" :: "add" :: _ => Some (2%Z, f)
  | _ => None
  end.

(** A package manager that refuses to create the project. *)
Definition spawn_refusing (argv : list string) (env : gmap string string)
    (dir : path) (f : gmap path entry) : option (Z * gmap path entry) :=
  Some (2%Z, f).

(** The worlds of [init] with that package manager, after the project
    creation and after the template copy. *)
Definition sample_created : world :=
  (create_project spawn_offline "demo" sample_world).2.

Definition sample_copied : world :=
  (copy_template_files (cwd sample_created ++ ["demo"]) default_template
     (set_cwd (cwd sample_created ++ ["demo"])
        (log (EvChdir (cwd sample_created ++ ["demo"])) sample_created))).2.

(** * Notions used in the further properties *)

(** A computation that leaves [os.environ] as it found it. *)
Definition keeps_environ {A} (m : M A) : Prop :=
  ∀ w, environ (m w).2 = environ w.

Definition is_file (f : gmap path entry) (p : path) : bool :=
  match f !! p with
  | Some (EFile _) => true
  | _ => false
  end.

(** What a copy towards [q] may do at a path [p], from the file system
    [f] to [f']: a directory stays a directory, a file stays a file, and
    when [p] is not at or below [q] it is left as it is, or it was
    missing and is now a directory above [q]. *)
Definition effect (q : path) (f f' : gmap path entry) (p : path) : Prop :=
  (is_dir f p = true → is_dir f' p = true)
  ∧ (is_file f p = true → is_file f' p = true)
  ∧ (¬ q `prefix_of` p →
       f' !! p = f !! p
       ∨ (f !! p = None ∧ f' !! p = Some EDir ∧ p `prefix_of` q)).


(** The entry of a directory listing with a given name. *)
Fixpoint tree_child (n : string) (children : list (string * tree))
    : option tree :=
  match children with
  | [] => None
  | (n', t) :: rest => if decide (n = n') then Some t else tree_child n rest
  end.

(** What a source tree has at a relative path. *)
Fixpoint tree_lookup (r : path) (t : tree) : option tree :=
  match r with
  | [] => Some t
  | n :: r' =>
      match t with
      | File _ => None
      | Dir children =>
          match tree_child n children with
          | Some t' => tree_lookup r' t'
          | None => None
          end
      end
  end.

(** What the copy of a source entry is in the file system. *)
Definition entry_of (t : tree) : entry :=
  match t with
  | File text => EFile (Text text)
  | Dir _ => EDir
  end.

(** A package manager that works: [uv init] creates the project
    directory and its manifest, [uv add] succeeds. *)
Definition spawn_online (argv : list string) (env : gmap string string)
    (dir : path) (f : gmap path entry) : option (Z * gmap path entry) :=
  match argv with
  | "uv" :: "init" :: name :: _ =>
      Some (0%Z,
            <[dir ++ [name; "pyproject.toml"] :=
                EFile (Doc [("project", VTable [("name", VString name)])])]>
              (<[dir ++ [name] := EDir]> f))
  | "uv" :: "add" :: _ => Some (0%Z, f)
  | _ => None
  end.

(** A package manager whose [uv add] works only offline. *)
Definition spawn_cached (argv : list string) (env : gmap string string)
    (dir : path) (f : gmap path entry) : option (Z * gmap path entry) :=
  match argv with
  | ["uv"; "add"; _; "--no-active"] => Some (2%Z, f)
  | "uv" :: "add" :: _ => Some (0%Z, f)
  | _ => None
  end.

(** A package manager that reports success and creates nothing. *)
Definition spawn_idle (argv : list string) (env : gmap string string)
    (dir : path) (f : gmap path entry) : option (Z * gmap path entry) :=
  Some (0%Z, f).

(** No package manager is installed. *)
Definition spawn_missing (argv : list string) (env : gmap string string)
    (dir : path) (f : gmap path entry) : option (Z * gmap path entry) :=
  None.

(** A process in [/home/demo] whose manifest is not TOML. *)
Definition broken_manifest_world : world :=
  World {[ "PATH" := "/usr/bin" ]}
        ["home"; "demo"]
        {[ [] := EDir; ["home"] := EDir; ["home"; "demo"] := EDir;
           ["home"; "demo"; "pyproject.toml"] := EFile (Text "[tool") ]}
        [].

(** A process above [/home/demo], where [src] is a regular file. *)
Definition clashing_world : world :=
  World {[ "PATH" := "/usr/bin" ]}
        ["home"]
        {[ [] := EDir; ["home"] := EDir; ["home"; "demo"] := EDir;
           ["home"; "demo"; "src"] := EFile (Text "") ]}
        [].

(** The worlds of [init] with the working package manager. *)
Definition online_created : world :=
  (create_project spawn_online "demo" sample_world).2.

Definition online_copied : world :=
  (copy_template_files (cwd online_created ++ ["demo"]) default_template
     (set_cwd (cwd online_created ++ ["demo"])
        (log (EvChdir (cwd online_created ++ ["demo"])) online_created))).2.

Definition online_installed : world :=
  (install_prefect spawn_online online_copied).2.

(** A source entry copied into an empty place is there afterwards, with
    all that it contains. *)
Definition copies_all (t : tree) : Prop :=
  ∀ q f, wf_tree t = true → above q f → vacant q f →
    ∀ r t', tree_lookup r t = Some t' →
            (copy_node t q f).1 !! (q ++ r) = Some (entry_of t').

(** * Properties *)

(** ** Running the monad *)

Lemma bind_run {A B} (m : M A) (k : A → M B) w :
  (m ≫= k) w = match m w with
               | (Ret a, w1) => k a w1
               | (Raise e, w1) => (Raise e, w1)
               end.
Proof. reflexivity. Qed.

Lemma ret_run {A} (a : A) w : mret (M := M) a w = (Ret a, w).
Proof. reflexivity. Qed.

Lemma raise_run {A} (e : exn) w : raise (A := A) e w = (Raise e, w).
Proof. reflexivity. Qed.

(** ** The scoped environment override *)

Lemma lookup_pop_all ks env k :
  pop_all ks env !! k = if decide (k ∈ ks) then None else env !! k.
Proof.
  unfold pop_all. revert env.
  induction ks as [|k' ks IH]; intros env; cbn [foldl].
  - rewrite decide_False; [done|]. set_solver.
  - rewrite IH. destruct (decide (k = k')) as [->|Hne].
    + rewrite lookup_delete_eq.
      rewrite (decide_True (P := k' ∈ k' :: ks)) by apply list_elem_of_here.
      by destruct (decide (k' ∈ ks)).
    + rewrite lookup_delete_ne by done.
      destruct (decide (k ∈ ks)) as [H1|H1].
      * rewrite decide_True; [done|]. by apply list_elem_of_further.
      * rewrite decide_False; [done|].
        intros [?|?]%elem_of_cons; done.
Qed.

Lemma for_env_pop ks w :
  for_ ks env_pop w = (Ret tt, set_environ (pop_all ks (environ w)) w).
Proof.
  revert w. induction ks as [|k ks IH]; intros w.
  - by destruct w.
  - simpl. unfold mbind, M_bind, bind. simpl. rewrite IH. done.
Qed.

Lemma modified_environ_enter_run remove update w :
  modified_environ_enter remove update w =
    (Ret tt, set_environ (env_inside remove update (environ w)) w).
Proof.
  unfold modified_environ_enter, mbind, M_bind, bind. simpl.
  by rewrite for_env_pop.
Qed.

Lemma modified_environ_exit_run remove update env0 w :
  modified_environ_exit (update_after remove update env0)
                        (remove_after update env0) w =
    (Ret tt, set_environ (env_restored remove update env0 (environ w)) w).
Proof.
  unfold modified_environ_exit, mbind, M_bind, bind. simpl.
  by rewrite for_env_pop.
Qed.

(** One run of the scope: the body starts in the overridden environment,
    and whatever its outcome the [finally] block is applied to the world
    it leaves. *)
Lemma modified_environ_run {A} remove update (body : M A) w :
  modified_environ remove update body w =
    let w1 := (modified_environ_enter remove update w).2 in
    ((body w1).1,
     set_environ (env_restored remove update (environ w)
                               (environ (body w1).2)) (body w1).2).
Proof.
  unfold modified_environ, try_finally, mbind, M_bind, bind.
  rewrite modified_environ_enter_run. simpl.
  destruct (body _) as [r w2] eqn:Hb. simpl.
  rewrite modified_environ_exit_run.
  by destruct r.
Qed.

Lemma lookup_update_after remove update env k :
  update_after remove update env !! k =
    if decide (k ∈ dom update ∨ k ∈ remove) then env !! k else None.
Proof.
  unfold update_after, stomped.
  destruct (env !! k) as [v|] eqn:Hk.
  - case_decide as H.
    + apply map_lookup_filter_Some. split; [done|]. simpl.
      apply elem_of_intersection. split.
      * apply elem_of_union. destruct H; [by left|right].
        by apply elem_of_list_to_set.
      * apply elem_of_dom. eauto.
    + apply map_lookup_filter_None. right. intros v' Hv'. simpl.
      rewrite elem_of_intersection, elem_of_union, elem_of_list_to_set.
      tauto.
  - assert (filter (λ kv : string * string,
              kv.1 ∈ (dom update ∪ list_to_set remove) ∩ dom env) env !! k
            = None) as ->.
    { apply map_lookup_filter_None. by left. }
    by case_decide.
Qed.

Lemma elem_of_remove_after update env k :
  k ∈ remove_after update env ↔ k ∈ dom update ∧ env !! k = None.
Proof.
  unfold remove_after. rewrite elem_of_filter. tauto.
Qed.

(** The restored environment, key by key: a key of the update map, or a
    removed key that was set at entry, gets back what it had at entry;
    every other key keeps what the body left. *)
Lemma lookup_env_restored remove update env0 env k :
  env_restored remove update env0 env !! k =
    if decide (k ∈ dom update ∨ (k ∈ remove ∧ is_Some (env0 !! k)))
    then env0 !! k else env !! k.
Proof.
  unfold env_restored. rewrite lookup_pop_all.
  rewrite lookup_union, lookup_update_after.
  destruct (decide (k ∈ elements (remove_after update env0))) as [Hra|Hra];
    rewrite elem_of_elements in Hra.
  - apply elem_of_remove_after in Hra as [Hu Hn].
    rewrite decide_True by (by left). done.
  - rewrite elem_of_remove_after in Hra.
    destruct (decide (k ∈ dom update)) as [Hu|Hu].
    + rewrite !decide_True by (by left).
      destruct (env0 !! k) eqn:E0; [|tauto].
      by destruct (env !! k).
    + destruct (decide (k ∈ remove)) as [Hr|Hr].
      * rewrite (decide_True (P := _ ∨ k ∈ remove)) by (by right).
        destruct (env0 !! k) eqn:E0.
        -- rewrite decide_True by (right; eauto). by destruct (env !! k).
        -- rewrite decide_False.
           2:{ intros [?|[_ [? ?]]]; [done|congruence]. }
           by destruct (env !! k).
      * rewrite !decide_False by tauto.
        by destruct (env !! k).
Qed.

Lemma lookup_env_inside remove update env k :
  env_inside remove update env !! k =
    if decide (k ∈ remove) then None
    else match update !! k with Some v => Some v | None => env !! k end.
Proof.
  unfold env_inside. rewrite lookup_pop_all, lookup_union.
  case_decide; [done|].
  by destruct (update !! k), (env !! k).
Qed.

(** Restoring right after the override gives the environment of before. *)
Lemma env_restored_inside remove update env :
  env_restored remove update env (env_inside remove update env) = env.
Proof.
  apply map_eq. intros k.
  rewrite lookup_env_restored, lookup_env_inside.
  case_decide as Haff; [done|].
  destruct (decide (k ∈ remove)) as [Hr|Hr].
  - destruct (env !! k) eqn:E; [|done].
    exfalso. apply Haff. right. eauto.
  - destruct (update !! k) eqn:E; [|done].
    exfalso. apply Haff. left. apply elem_of_dom. eauto.
Qed.

(** C3. Entering the scoped environment override and leaving it gives
    back the environment of before, whether the body returns or raises
    (its outcome is the outcome of the scope), for every environment,
    update map and removal list; the body is one that does not write the
    environment itself. *)
Theorem modified_environ_restores {A} (remove : list string)
    (update : gmap string string) (body : M A) (w : world) :
  (∀ w', environ (body w').2 = environ w') →
  environ (modified_environ remove update body w).2 = environ w
  ∧ (modified_environ remove update body w).1
    = (body (modified_environ_enter remove update w).2).1.
Proof.
  intros Hbody. rewrite modified_environ_run. simpl. split; [|done].
  rewrite Hbody, modified_environ_enter_run. simpl.
  apply env_restored_inside.
Qed.

(** C8. A key that is both updated and removed is absent inside the
    scope (a body that reads it finds nothing: the removal comes after
    the update), and after the scope it is what it was before, whatever
    the body did. *)
Theorem modified_environ_update_and_remove {A} (remove : list string)
    (update : gmap string string) (body : M A) (w : world) (k : string) :
  k ∈ dom update → k ∈ remove →
  (modified_environ remove update (env_get k) w).1 = Ret None
  ∧ environ (modified_environ_enter remove update w).2 !! k = None
  ∧ environ (modified_environ remove update body w).2 !! k
    = environ w !! k.
Proof.
  intros Hu Hr. rewrite !modified_environ_run. simpl.
  rewrite modified_environ_enter_run. simpl.
  rewrite lookup_env_inside, lookup_env_restored.
  rewrite (decide_True (P := k ∈ remove)) by done.
  rewrite decide_True by (by left). done.
Qed.

(** C10. The exit of the scope restores the update keys and the removal
    keys that were set at entry, and nothing else: every other key is
    left as the body left it, so what the body wrote under a name outside
    the update map and the removal list stays after the scope. *)
Theorem modified_environ_frame {A} (remove : list string)
    (update : gmap string string) (body : M A) (w : world) :
  let left := environ (body (modified_environ_enter remove update w).2).2 in
  let after := environ (modified_environ remove update body w).2 in
  (∀ k, after !! k =
        if decide (k ∈ dom update ∨ (k ∈ remove ∧ is_Some (environ w !! k)))
        then environ w !! k else left !! k)
  ∧ (∀ k, k ∉ dom update → k ∉ remove → after !! k = left !! k).
Proof.
  simpl. rewrite modified_environ_run. simpl.
  assert (∀ k, env_restored remove update (environ w)
      (environ (body (modified_environ_enter remove update w).2).2) !! k =
      if decide (k ∈ dom update ∨ (k ∈ remove ∧ is_Some (environ w !! k)))
      then environ w !! k
      else environ (body (modified_environ_enter remove update w).2).2 !! k)
    as Hall by (intros k; apply lookup_env_restored).
  split; [done|].
  intros k Hu Hr. rewrite Hall, decide_False; [done|tauto].
Qed.

(** ** The scoped working-directory override *)

Lemma ChangeDirectory_enter_run (self : ChangeDirectory) w :
  ChangeDirectory_enter self w =
    let self' := {| new_path := new_path self; previous_path := cwd w |} in
    let w1 := log (EvChdir (new_path self)) w in
    if is_dir (fs w) (new_path self)
    then (Ret self', set_cwd (new_path self) w1)
    else (Raise (OSError (new_path self)), w1).
Proof.
  unfold ChangeDirectory_enter, mbind, M_bind, bind, getcwd, chdir. simpl.
  by destruct (is_dir _ _).
Qed.

Lemma with_ChangeDirectory_run {A} (target : path) (body : M A) w :
  with_ChangeDirectory target body w =
    if is_dir (fs w) target then
      let inside := set_cwd target (log (EvChdir target) w) in
      let w2 := (body inside).2 in
      if is_dir (fs w2) (cwd w)
      then ((body inside).1, set_cwd (cwd w) (log (EvChdir (cwd w)) w2))
      else (Raise (OSError (cwd w)), log (EvChdir (cwd w)) w2)
    else (Raise (OSError target), log (EvChdir target) w).
Proof.
  unfold with_ChangeDirectory, with_, ChangeDirectory_init.
  rewrite !bind_run. unfold getcwd at 1. rewrite ret_run.
  rewrite bind_run, ChangeDirectory_enter_run. simpl.
  destruct (is_dir (fs w) target); [|done].
  unfold try_finally, ChangeDirectory_exit, chdir. simpl.
  destruct (body _) as [r w2]. simpl.
  by destruct (is_dir (fs w2) (cwd w)).
Qed.

(** C4. From any working directory, a [ChangeDirectory] scope on a
    target that can be entered ends in the directory it started from,
    whether its body returned or raised (the outcome of the body is the
    outcome of the scope); the body may move elsewhere and change the
    file system, as long as the starting directory is still there at the
    end. *)
Theorem ChangeDirectory_restores {A} (target : path) (body : M A)
    (w : world) :
  let inside := set_cwd target (log (EvChdir target) w) in
  is_dir (fs w) target = true →
  is_dir (fs (body inside).2) (cwd w) = true →
  cwd (with_ChangeDirectory target body w).2 = cwd w
  ∧ (with_ChangeDirectory target body w).1 = (body inside).1.
Proof.
  intros inside Htarget Hback.
  rewrite with_ChangeDirectory_run, Htarget. simpl.
  fold inside. by rewrite Hback.
Qed.

(** C7. A [ChangeDirectory] scope on a target that is not a directory
    the process can enter raises the error of [os.chdir]; the working
    directory, the environment and the file system are as before, the
    body is not run, and the one [chdir] that was tried is the failed
    entry: nothing is restored. *)
Theorem ChangeDirectory_enter_fails {A} (target : path) (body : M A)
    (w : world) :
  is_dir (fs w) target = false →
  with_ChangeDirectory target body w
    = (Raise (OSError target), log (EvChdir target) w)
  ∧ cwd (with_ChangeDirectory target body w).2 = cwd w
  ∧ trace (with_ChangeDirectory target body w).2
    = trace w ++ [EvChdir target].
Proof.
  intros Htarget. by rewrite with_ChangeDirectory_run, Htarget.
Qed.

(** ** The manifest patch *)

Lemma dict_get_set_eq k v d : dict_get k (dict_set k v d) = Some v.
Proof.
  induction d as [|[k' v'] d IH]; simpl.
  - by rewrite decide_True.
  - destruct (decide (k = k')) as [->|Hne]; simpl.
    + by rewrite decide_True.
    + by rewrite decide_False.
Qed.

Lemma dict_get_set_ne k k' v d :
  k' ≠ k → dict_get k' (dict_set k v d) = dict_get k' d.
Proof.
  intros Hne. induction d as [|[k0 v0] d IH]; simpl.
  - by rewrite decide_False.
  - destruct (decide (k = k0)) as [->|Hne0]; simpl.
    + by rewrite !decide_False.
    + by rewrite IH.
Qed.

Lemma dict_set_set k v v' d :
  dict_set k v (dict_set k v' d) = dict_set k v d.
Proof.
  induction d as [|[k0 v0] d IH]; simpl.
  - by rewrite decide_True.
  - destruct (decide (k = k0)) as [->|Hne0]; simpl.
    + by rewrite decide_True.
    + by rewrite decide_False, IH.
Qed.

(** The document the patch writes, for the document [d] it read. *)
Lemma patch_pyproject_run w d :
  fs w !! (cwd w ++ ["pyproject.toml"]) = Some (EFile (Doc d)) →
  patch_pyproject w =
    (Ret tt,
     World (environ w) (cwd w)
       (<[cwd w ++ ["pyproject.toml"] :=
            EFile (Doc (dict_set "tool"
                          (VTable [("prefect", prefect_settings)]) d))]>
          (fs w))
       (trace w ++ [EvOpen (cwd w ++ ["pyproject.toml"]) ModeR;
                    EvOpen (cwd w ++ ["pyproject.toml"]) ModeW])).
Proof.
  intros Hfile. unfold patch_pyproject.
  rewrite bind_run. unfold open_r at 1. rewrite Hfile.
  rewrite bind_run. unfold toml_load at 1. simpl. rewrite Hfile.
  rewrite bind_run. unfold dict_set_in.
  rewrite dict_get_set_eq, ret_run, dict_set_set.
  rewrite bind_run. unfold open_w. simpl. rewrite Hfile.
  unfold toml_dump, set_fs, log. simpl.
  by rewrite insert_insert_eq, <- app_assoc.
Qed.

(** C2. Whatever document the manifest holds, the patch succeeds and the
    document it writes has, under [tool.prefect], exactly the table of
    the two settings [home] and [profiles_path]: a [tool.prefect] table
    that was there is replaced, not merged. *)
Theorem patch_pyproject_tool_prefect (w : world) (d : table) :
  fs w !! (cwd w ++ ["pyproject.toml"]) = Some (EFile (Doc d)) →
  (patch_pyproject w).1 = Ret tt
  ∧ ∃ d', fs (patch_pyproject w).2 !! (cwd w ++ ["pyproject.toml"])
            = Some (EFile (Doc d'))
          ∧ get_path ["tool"; "prefect"] (VTable d')
            = Some (VTable
                      [("home", VString "./.prefect");
                       ("profiles_path",
                        VString "./.prefect/profiles.toml")]).
Proof.
  intros Hfile. rewrite (patch_pyproject_run w d Hfile). simpl.
  split; [done|]. eexists. split; [apply lookup_insert_eq|].
  cbn [get_path]. by rewrite dict_get_set_eq.
Qed.

(** C1, as the code has it. Whatever document the manifest holds, the
    patch succeeds and every top-level entry of the document other than
    [tool] is in the written document as it was. *)
Theorem patch_pyproject_preserves_top_level (w : world) (d : table) :
  fs w !! (cwd w ++ ["pyproject.toml"]) = Some (EFile (Doc d)) →
  (patch_pyproject w).1 = Ret tt
  ∧ ∃ d', fs (patch_pyproject w).2 !! (cwd w ++ ["pyproject.toml"])
            = Some (EFile (Doc d'))
          ∧ ∀ k, k ≠ "tool" → dict_get k d' = dict_get k d.
Proof.
  intros Hfile. rewrite (patch_pyproject_run w d Hfile). simpl.
  split; [done|]. eexists. split; [apply lookup_insert_eq|].
  intros k Hk. by apply dict_get_set_ne.
Qed.

(** ** The template copy *)

Lemma tree_rect_nested (P : tree → Prop) :
  (∀ text, P (File text)) →
  (∀ children, Forall (λ c, P c.2) children → P (Dir children)) →
  ∀ t, P t.
Proof.
  intros HFile HDir.
  fix IH 1. intros [text|children].
  - apply HFile.
  - apply HDir. induction children as [|[n t] children IHc].
    + constructor.
    + constructor; [apply IH | apply IHc].
Qed.

Lemma prefix_snoc_inv (p q : path) n :
  p `prefix_of` q ++ [n] → p = q ++ [n] ∨ p `prefix_of` q.
Proof.
  intros [k Hk]. destruct (decide (k = [])) as [->|Hne].
  - left. by rewrite app_nil_r in Hk.
  - right. destruct (exists_last Hne) as (k' & x & ->).
    rewrite app_assoc in Hk. apply app_inj_tail in Hk as [-> _].
    by exists k'.
Qed.

Lemma prefix_snoc_ne (p q : path) n : q ++ [n] `prefix_of` p → p ≠ q.
Proof. intros Hp ->. by apply prefix_snoc_not in Hp. Qed.

Lemma prefix_snoc_sibling (p q : path) n n' :
  q ++ [n] `prefix_of` p → q ++ [n'] `prefix_of` p → n = n'.
Proof.
  intros [k ->] [k' Hk']. rewrite <- !app_assoc in Hk'.
  apply app_inv_head in Hk'. simpl in Hk'. congruence.
Qed.

Lemma prefix_snoc_above (p q : path) n :
  q ++ [n] `prefix_of` p → p `prefix_of` q → False.
Proof.
  intros H1%prefix_length H2%prefix_length.
  rewrite length_app in H1. simpl in H1. lia.
Qed.

Lemma app_cons_ne (base : path) n rest : base ≠ base ++ n :: rest.
Proof.
  intros H%(f_equal length). rewrite length_app in H. simpl in H. lia.
Qed.

Lemma is_dir_true f p : is_dir f p = true ↔ f !! p = Some EDir.
Proof.
  unfold is_dir. destruct (f !! p) as [[|c]|]; split; congruence.
Qed.

Lemma dirs_from_prefix base rest f q :
  dirs_from base rest f = true →
  base `prefix_of` q → q `prefix_of` base ++ rest → f !! q = Some EDir.
Proof.
  revert base. induction rest as [|n rest IH]; intros base Hd Hb Hq.
  - rewrite app_nil_r in Hq.
    assert (q = base) as -> by (by apply (anti_symm prefix)).
    simpl in Hd. apply andb_prop in Hd as [Hd _]. by apply is_dir_true.
  - simpl in Hd. apply andb_prop in Hd as [Hd Hrest].
    destruct (decide (q = base)) as [->|Hne]; [by apply is_dir_true|].
    apply (IH (base ++ [n])); [done| |by rewrite <- app_assoc].
    destruct Hb as [k ->]. destruct k as [|x k].
    + by rewrite app_nil_r in Hne.
    + destruct Hq as [k' Hk']. rewrite <- !app_assoc in Hk'.
      apply app_inv_head in Hk'. simpl in Hk'. injection Hk' as -> _.
      exists k. by rewrite <- app_assoc.
Qed.

(** On directories that exist, [makedirs] changes nothing. *)
Lemma makedirs_from_existing base rest f :
  dirs_from base rest f = true → makedirs_from base rest f = Some f.
Proof.
  revert base. induction rest as [|n rest IH]; intros base Hd;
    simpl in Hd; apply andb_prop in Hd as [Hd Hrest];
    apply is_dir_true in Hd; simpl; rewrite Hd; [done|by apply IH].
Qed.

(** When only the last directory is missing, [makedirs] creates it. *)
Lemma makedirs_from_deleted base rest f :
  dirs_from base rest f = true →
  makedirs_from base rest (delete (base ++ rest) f) = Some f.
Proof.
  revert base. induction rest as [|n rest IH]; intros base Hd;
    simpl in Hd; apply andb_prop in Hd as [Hd Hrest];
    apply is_dir_true in Hd; simpl.
  - rewrite app_nil_r, lookup_delete_eq, insert_delete_eq.
    by rewrite insert_id.
  - rewrite lookup_delete_ne by (by intros ?%symmetry%app_cons_ne).
    rewrite Hd. specialize (IH _ Hrest).
    by rewrite <- app_assoc in IH.
Qed.

(** Below directories that exist, [makedirs] creates the last one when
    it is missing. *)
Lemma makedirs_from_last base rest f :
  (∀ q, base `prefix_of` q → q `prefix_of` base ++ rest →
        q ≠ base ++ rest → f !! q = Some EDir) →
  f !! (base ++ rest) = None ∨ f !! (base ++ rest) = Some EDir →
  makedirs_from base rest f = Some (<[base ++ rest := EDir]> f).
Proof.
  revert base. induction rest as [|n rest IH]; intros base Habove Hlast; simpl.
  - rewrite app_nil_r in *. destruct Hlast as [->| Hd]; [done|].
    by rewrite Hd, insert_id.
  - rewrite (Habove base); [|done|by apply prefix_app_r|apply app_cons_ne].
    replace (base ++ n :: rest) with ((base ++ [n]) ++ rest) in *
      by (by rewrite <- app_assoc).
    apply IH; [|done]. intros q Hq1 Hq2 Hq3. apply Habove; [|done..].
    by apply prefix_app_l in Hq1.
Qed.

Lemma makedirs_last p f :
  above p f → f !! p = None ∨ f !! p = Some EDir →
  makedirs p f = Some (<[p := EDir]> f).
Proof.
  intros Habove Hlast. apply (makedirs_from_last [] p f); [|done].
  intros q _ Hq Hne. by apply Habove.
Qed.

Lemma copy_entries_ok children :
  Forall (λ c, copies_cleanly c.2) children →
  ∀ q f,
    NoDup children.*1 →
    forallb (λ c, wf_tree c.2) children = true →
    above q f → f !! q = Some EDir →
    (∀ n, n ∈ children.*1 → vacant (q ++ [n]) f) →
    ∃ f', copy_entries copy_node children q f = (f', [])
          ∧ ∀ p, (∀ n, n ∈ children.*1 → ¬ q ++ [n] `prefix_of` p) →
                 f' !! p = f !! p.
Proof.
  induction 1 as [|[n t] children Ht _ IH];
    intros q f Hnodup Hwf Habove Hq Hvac.
  - exists f. done.
  - simpl in *. apply NoDup_cons in Hnodup as [Hn Hnodup].
    apply andb_prop in Hwf as [Hwt Hwf].
    destruct (Ht (q ++ [n]) f) as (f1 & Hcopy & Hframe); [done| |..].
    { intros p Hp Hne. apply prefix_snoc_inv in Hp as [->|Hp]; [done|].
      destruct (decide (p = q)) as [->|Hpq]; [done|by apply Habove]. }
    { apply Hvac. by left. }
    rewrite Hcopy.
    destruct (IH q f1) as (f2 & Hrest & Hframe2); [done..| | | |].
    { intros p Hp Hne. rewrite Hframe; [by apply Habove|].
      intros Hsn. by apply (prefix_snoc_above p q n). }
    { rewrite Hframe; [done|]. apply prefix_snoc_not. }
    { intros n' Hn' p Hp. rewrite Hframe; [apply (Hvac n'); [by right|done]|].
      intros Hsn. assert (n = n') as -> by (eapply prefix_snoc_sibling; eassumption).
      done. }
    rewrite Hrest. exists f2. split; [done|].
    intros p Hp. rewrite Hframe2.
    + apply Hframe, Hp. by left.
    + intros n' Hn'. apply Hp. by right.
Qed.

Lemma copy_node_ok t : copies_cleanly t.
Proof.
  induction t as [text|children IH] using tree_rect_nested;
    intros q f Hwf Habove Hvac.
  - simpl. unfold copy2. rewrite (Hvac q) by done.
    eexists. split; [done|]. intros p Hp.
    apply lookup_insert_ne. by intros ->.
  - simpl in *. apply andb_prop in Hwf as [Hnodup Hwf].
    apply bool_decide_eq_true in Hnodup.
    rewrite (makedirs_last q f); [|done|by left; apply Hvac].
    destruct (copy_entries_ok children IH q (<[q:=EDir]> f))
      as (f' & Hcopy & Hframe); [done..| | | |].
    + intros p Hp Hne. rewrite lookup_insert_ne by done. by apply Habove.
    + apply lookup_insert_eq.
    + intros n Hn p Hp.
      rewrite lookup_insert_ne
        by (intros Heq; by apply (prefix_snoc_ne p q n Hp)).
      apply Hvac. by apply prefix_app_l in Hp.
    + exists f'. split; [done|]. intros p Hp.
      rewrite Hframe.
      * apply lookup_insert_ne. by intros ->.
      * intros n _ Hsn. apply Hp. by apply prefix_app_l in Hsn.
Qed.

Lemma dir_exists_above p f : dir_exists p f = true → above p f.
Proof.
  intros Hd q Hq _. apply (dirs_from_prefix [] p f q Hd); [|done].
  apply prefix_nil.
Qed.

Lemma dir_exists_is_dir p f : dir_exists p f = true → f !! p = Some EDir.
Proof.
  intros Hd. by apply (dirs_from_prefix [] p f p Hd); [apply prefix_nil|].
Qed.

Lemma empty_below_vacant p n f : empty_below p f → vacant (p ++ [n]) f.
Proof.
  intros He q Hq. destruct (f !! q) as [e|] eqn:E; [|done].
  exfalso. apply (prefix_snoc_ne q p n Hq).
  apply (He q e E). by apply prefix_app_l in Hq.
Qed.

Lemma set_fs_same w : set_fs (fs w) w = w.
Proof. by destruct w. Qed.

Lemma mkdir_existing p w :
  dir_exists p (fs w) = true → mkdir p w = (Ret tt, w).
Proof.
  intros Hdir. unfold mkdir, makedirs.
  by rewrite (makedirs_from_existing [] p (fs w) Hdir), set_fs_same.
Qed.

Lemma mkdir_deleted p w :
  dir_exists p (fs w) = true →
  mkdir p (set_fs (delete p (fs w)) w) = (Ret tt, w).
Proof.
  intros Hdir. unfold mkdir, makedirs. simpl.
  pose proof (makedirs_from_deleted [] p (fs w) Hdir) as Hmk.
  simpl in Hmk. rewrite Hmk. by destruct w.
Qed.

(** The copy into a directory that exists and is empty: no error, and
    nothing is written outside of the destination. *)
Lemma copy_template_files_ok destination children w :
  wf_tree (Dir children) = true →
  dir_exists destination (fs w) = true →
  empty_below destination (fs w) →
  ∃ f', copy_template_files destination (Dir children) w
        = (Ret tt, set_fs f' (log (EvCopytree destination) w))
      ∧ ∀ p, ¬ destination `prefix_of` p → f' !! p = fs w !! p.
Proof.
  intros Hwf Hdir Hempty. simpl in Hwf.
  apply andb_prop in Hwf as [Hnodup Hwf].
  apply bool_decide_eq_true in Hnodup.
  unfold copy_template_files.
  rewrite bind_run, mkdir_existing by done.
  unfold copytree, makedirs. simpl.
  rewrite (makedirs_from_existing [] destination (fs w) Hdir).
  destruct (copy_entries_ok children
              (proj2 (Forall_forall _ _) (λ c _, copy_node_ok c.2))
              destination (fs w))
    as (f' & Hcopy & Hframe); [done..| | | |].
  - by apply dir_exists_above.
  - by apply dir_exists_is_dir.
  - intros n _. by apply empty_below_vacant.
  - rewrite Hcopy. exists f'. split; [done|].
    intros p Hp. apply Hframe. intros n _ Hsn. apply Hp.
    by apply prefix_app_l in Hsn.
Qed.

(** C9. For every destination and every well-formed template directory,
    the copy into a destination that already exists as an empty directory
    succeeds, and it gives what the copy gives when the destination is
    not there beforehand and the copy creates it. *)
Theorem copy_template_files_existing_destination (destination : path)
    (children : list (string * tree)) (w : world) :
  wf_tree (Dir children) = true →
  dir_exists destination (fs w) = true →
  empty_below destination (fs w) →
  let fresh := set_fs (delete destination (fs w)) w in
  (copy_template_files destination (Dir children) w).1 = Ret tt
  ∧ copy_template_files destination (Dir children) w
    = copy_template_files destination (Dir children) fresh.
Proof.
  intros Hwf Hdir Hempty fresh.
  destruct (copy_template_files_ok destination children w)
    as (f' & Hrun & _); [done..|].
  split; [by rewrite Hrun|].
  unfold copy_template_files, fresh.
  by rewrite !bind_run, mkdir_existing, mkdir_deleted.
Qed.

(** ** The orchestrator *)

Section InitProperties.

Context (spawn : list string → gmap string string → path →
                 gmap path entry → option (Z * gmap path entry)).

Lemma subprocess_run_environ argv w :
  environ (subprocess_run spawn argv w).2 = environ w.
Proof.
  unfold subprocess_run.
  destruct (spawn _ _ _ _) as [[code f]|]; [|done].
  simpl. by case_decide.
Qed.

(** The project creation, case by case on what [uv init] does; the
    child sees the seed variable, the environment afterwards is the one
    of before. *)
Lemma create_project_run name w :
  let env1 := <["UV_VENV_SEED" := "True"]> (environ w) in
  create_project spawn name w =
    match spawn (uv_init name) env1 (cwd w) (fs w) with
    | None =>
        (Raise (OSError ["uv"]),
         log (EvSpawn (uv_init name) env1 (cwd w) None) w)
    | Some (code, f) =>
        let w1 := World (environ w) (cwd w) f
                    (trace w ++ [EvSpawn (uv_init name) env1 (cwd w)
                                         (Some code)]) in
        if decide (code = 0%Z) then (Ret tt, w1)
        else (Raise (Exit 1), w1)
    end.
Proof.
  intros env1. unfold create_project, try_except.
  rewrite modified_environ_run, modified_environ_enter_run.
  cbn [snd fst]. rewrite subprocess_run_environ.
  cbn [environ set_environ]. rewrite env_restored_inside.
  assert (env_inside [] {["UV_VENV_SEED" := "True"]} (environ w) = env1)
    as Henv.
  { unfold env_inside, pop_all, env1. simpl.
    by rewrite insert_union_singleton_l. }
  unfold subprocess_run. cbn [environ cwd fs set_environ]. rewrite Henv.
  destruct (spawn _ _ _ _) as [[code f]|]; [|by destruct w].
  destruct (decide (code = 0%Z)); by destruct w.
Qed.

(** The dependency installation, case by case on what [uv add] does. *)
Lemma install_prefect_run w :
  install_prefect spawn w =
    match spawn uv_add (environ w) (cwd w) (fs w) with
    | None =>
        (Raise (OSError ["uv"]),
         log (EvSpawn uv_add (environ w) (cwd w) None) w)
    | Some (code, f) =>
        let w1 := log (EvSpawn uv_add (environ w) (cwd w) (Some code))
                      (set_fs f w) in
        if decide (code = 0%Z) then (Ret tt, w1)
        else subprocess_run spawn uv_add_offline w1
    end.
Proof.
  unfold install_prefect, console_status, with_.
  rewrite bind_run, ret_run. unfold try_finally, try_except.
  unfold subprocess_run at 1.
  destruct (spawn uv_add _ _ _) as [[code f]|]; [|done].
  destruct (decide (code = 0%Z)); [done|]. simpl.
  by destruct (subprocess_run _ _ _) as [[] ?].
Qed.

Lemma subprocess_run_trace argv w :
  trace (subprocess_run spawn argv w).2 =
    trace w ++ [EvSpawn argv (environ w) (cwd w)
                        (fst <$> spawn argv (environ w) (cwd w) (fs w))].
Proof.
  unfold subprocess_run.
  destruct (spawn _ _ _ _) as [[code f]|]; [|done].
  simpl. by case_decide.
Qed.

(** The child processes of the dependency installation, in order. *)
Lemma install_prefect_trace w :
  trace (install_prefect spawn w).2 =
    trace w ++
    match spawn uv_add (environ w) (cwd w) (fs w) with
    | None => [EvSpawn uv_add (environ w) (cwd w) None]
    | Some (code, f) =>
        EvSpawn uv_add (environ w) (cwd w) (Some code) ::
        if decide (code = 0%Z) then []
        else [EvSpawn uv_add_offline (environ w) (cwd w)
                (fst <$> spawn uv_add_offline (environ w) (cwd w) f)]
    end.
Proof.
  rewrite install_prefect_run.
  destruct (spawn uv_add _ _ _) as [[code f]|]; [|done].
  destruct (decide (code = 0%Z)); [done|].
  rewrite subprocess_run_trace. simpl. by rewrite <- app_assoc.
Qed.

(** C6. When [uv init] exits with a status other than 0, [init] ends
    with [typer.Exit(code=1)], exit status 1, right there: the one
    thing it has done is that child process. The working directory is
    not changed, nothing is copied, installed or patched, the file
    system is as the child left it, and the environment is the one of
    before the override. *)
Theorem init_create_project_fails (name : string) (w : world)
    (code : Z) (f : gmap path entry) :
  let env1 := <["UV_VENV_SEED" := "True"]> (environ w) in
  spawn (uv_init name) env1 (cwd w) (fs w) = Some (code, f) →
  code ≠ 0%Z →
  init spawn name w
    = (Raise (Exit 1),
       World (environ w) (cwd w) f
         (trace w ++ [EvSpawn (uv_init name) env1 (cwd w) (Some code)]))
  ∧ exit_status (init spawn name w).1 = 1%Z.
Proof.
  intros env1 Hspawn Hcode.
  assert (init spawn name w
    = (Raise (Exit 1),
       World (environ w) (cwd w) f
         (trace w ++ [EvSpawn (uv_init name) env1 (cwd w) (Some code)])))
    as ->; [|done].
  unfold init. rewrite bind_run, create_project_run. fold env1.
  rewrite Hspawn. by rewrite decide_False.
Qed.

(** C5. The dependency installation starts [uv add prefect --no-active]
    first; it starts the offline, no-cache, frozen command if and only
    if the first one exited with a status other than 0; and when that
    one too exits with a status other than 0 the step raises its
    [CalledProcessError]. In [init], which has then created the
    project, entered it and copied the template, this error is the
    outcome: the manifest is not opened, the file system is as the
    second child left it, and the only thing done afterwards is the
    return to the starting directory. *)
Theorem install_prefect_fallback :
  (∀ w,
     let out1 := spawn uv_add (environ w) (cwd w) (fs w) in
     let step := install_prefect spawn w in
     let evs := drop (length (trace w)) (trace step.2) in
     head evs = Some (EvSpawn uv_add (environ w) (cwd w) (fst <$> out1))
     ∧ ((∃ env dir out2, EvSpawn uv_add_offline env dir out2 ∈ evs)
        ↔ (∃ c1 f1, out1 = Some (c1, f1) ∧ c1 ≠ 0%Z))
     ∧ (∀ c1 f1 c2 f2,
          out1 = Some (c1, f1) → c1 ≠ 0%Z →
          spawn uv_add_offline (environ w) (cwd w) f1 = Some (c2, f2) →
          c2 ≠ 0%Z →
          step.1 = Raise (CalledProcessError c2 uv_add_offline)))
  ∧ (∀ name w w1 w2 c1 f1 c2 f2,
       let project := cwd w1 ++ [name] in
       create_project spawn name w = (Ret tt, w1) →
       is_dir (fs w1) project = true →
       copy_template_files project default_template
         (set_cwd project (log (EvChdir project) w1)) = (Ret tt, w2) →
       spawn uv_add (environ w2) (cwd w2) (fs w2) = Some (c1, f1) →
       c1 ≠ 0%Z →
       spawn uv_add_offline (environ w2) (cwd w2) f1 = Some (c2, f2) →
       c2 ≠ 0%Z →
       is_dir f2 (cwd w1) = true →
       init spawn name w
         = (Raise (CalledProcessError c2 uv_add_offline),
            World (environ w2) (cwd w1) f2
              (trace w2 ++
                 [EvSpawn uv_add (environ w2) (cwd w2) (Some c1);
                  EvSpawn uv_add_offline (environ w2) (cwd w2) (Some c2);
                  EvChdir (cwd w1)]))).
Proof.
  split.
  - intros w out1 step evs. subst evs step.
    rewrite install_prefect_trace, drop_app_length.
    rewrite install_prefect_run. fold out1.
    destruct out1 as [[c1 f1]|] eqn:Hout1; simpl.
    + split; [done|]. destruct (decide (c1 = 0%Z)) as [->|Hc1].
      * split; [|by intros ???? [= <- _] ?]. split.
        -- intros (env & dir & out2 & Hin).
           apply list_elem_of_singleton in Hin. discriminate.
        -- by intros (? & ? & [= <- _] & ?).
      * split; [split; [by eauto|]|].
        -- intros _. do 3 eexists. apply elem_of_cons. right.
           by apply list_elem_of_singleton.
        -- intros ? ? c2 f2 [= <- <-] _ Hspawn2 Hc2.
           unfold subprocess_run. simpl. rewrite Hspawn2.
           by rewrite decide_False.
    + split; [done|]. split; [|by intros ???? [=]]. split.
      * intros (env & dir & out2 & Hin).
        apply list_elem_of_singleton in Hin. discriminate.
      * by intros (? & ? & [=] & ?).
  - intros name w w1 w2 c1 f1 c2 f2 project Hcreate Hproject Hcopy
      Hadd Hc1 Hoffline Hc2 Hback.
    assert (init_in_project spawn name
              (set_cwd project (log (EvChdir project) w1))
            = (Raise (CalledProcessError c2 uv_add_offline),
               World (environ w2) (cwd w2) f2
                 (trace w2 ++
                    [EvSpawn uv_add (environ w2) (cwd w2) (Some c1);
                     EvSpawn uv_add_offline (environ w2) (cwd w2)
                             (Some c2)]))) as Hbody.
    { unfold init_in_project. rewrite bind_run. unfold getcwd at 1.
      cbn [cwd set_cwd]. rewrite bind_run, Hcopy.
      rewrite bind_run, install_prefect_run, Hadd.
      rewrite decide_False by done.
      unfold subprocess_run. cbn [environ cwd fs log set_fs].
      rewrite Hoffline. rewrite decide_False by done.
      unfold log, set_fs. simpl. by rewrite <- app_assoc. }
    unfold init. rewrite bind_run, Hcreate, bind_run.
    unfold getcwd at 1. fold project.
    rewrite with_ChangeDirectory_run, Hproject.
    cbv zeta. rewrite Hbody. cbn [fst snd fs]. rewrite Hback.
    unfold log, set_cwd. simpl. by rewrite <- app_assoc.
Qed.

End InitProperties.

(** * The theorems at the sample runs *)

Lemma modified_environ_restores_witness :
  environ (modified_environ ["HOME"] {[ "UV_VENV_SEED" := "True" ]}
             (raise (A := unit) (Exit 1)) sample_world).2
    = environ sample_world
  ∧ (modified_environ ["HOME"] {[ "UV_VENV_SEED" := "True" ]}
       (raise (A := unit) (Exit 1)) sample_world).1
    = Raise (Exit 1).
Proof.
  apply (modified_environ_restores ["HOME"] {[ "UV_VENV_SEED" := "True" ]}
           (raise (A := unit) (Exit 1)) sample_world).
  intros w'. reflexivity.
Defined.

Lemma modified_environ_update_and_remove_witness :
  (modified_environ ["PATH"] {[ "PATH" := "/opt/bin" ]} (env_get "PATH")
     sample_world).1 = Ret None
  ∧ environ (modified_environ_enter ["PATH"] {[ "PATH" := "/opt/bin" ]}
               sample_world).2 !! "PATH" = None
  ∧ environ (modified_environ ["PATH"] {[ "PATH" := "/opt/bin" ]}
               (env_set "PATH" "/tmp") sample_world).2 !! "PATH"
    = Some "/usr/bin".
Proof.
  apply (modified_environ_update_and_remove ["PATH"]
           {[ "PATH" := "/opt/bin" ]} (env_set "PATH" "/tmp")
           sample_world "PATH").
  - apply (bool_decide_unpack _). vm_compute. reflexivity.
  - apply (bool_decide_unpack _). vm_compute. reflexivity.
Defined.

Lemma modified_environ_frame_witness :
  environ (modified_environ ["HOME"] {[ "UV_VENV_SEED" := "True" ]}
             (env_set "LANG" "C") sample_world).2 !! "LANG"
    = Some "C".
Proof.
  rewrite (proj2 (modified_environ_frame ["HOME"]
                    {[ "UV_VENV_SEED" := "True" ]} (env_set "LANG" "C")
                    sample_world) "LANG").
  - vm_compute. reflexivity.
  - apply (bool_decide_unpack _). vm_compute. reflexivity.
  - apply (bool_decide_unpack _). vm_compute. reflexivity.
Defined.

Lemma ChangeDirectory_restores_witness :
  cwd (with_ChangeDirectory ["home"; "demo"] (raise (A := unit) (Exit 1))
         empty_project_world).2 = ["home"]
  ∧ (with_ChangeDirectory ["home"; "demo"] (raise (A := unit) (Exit 1))
       empty_project_world).1 = Raise (Exit 1).
Proof.
  apply (ChangeDirectory_restores ["home"; "demo"]
           (raise (A := unit) (Exit 1)) empty_project_world).
  - vm_compute. reflexivity.
  - vm_compute. reflexivity.
Defined.

Lemma ChangeDirectory_enter_fails_witness :
  with_ChangeDirectory ["home"; "demo"] (env_set "LANG" "C") sample_world
    = (Raise (OSError ["home"; "demo"]),
       log (EvChdir ["home"; "demo"]) sample_world)
  ∧ cwd (with_ChangeDirectory ["home"; "demo"] (env_set "LANG" "C")
           sample_world).2 = ["home"]
  ∧ trace (with_ChangeDirectory ["home"; "demo"] (env_set "LANG" "C")
             sample_world).2 = [EvChdir ["home"; "demo"]].
Proof.
  apply (ChangeDirectory_enter_fails ["home"; "demo"] (env_set "LANG" "C")
           sample_world).
  vm_compute. reflexivity.
Defined.

Lemma patch_pyproject_tool_prefect_witness :
  (patch_pyproject project_world).1 = Ret tt
  ∧ ∃ d', fs (patch_pyproject project_world).2
             !! ["home"; "demo"; "pyproject.toml"] = Some (EFile (Doc d'))
          ∧ get_path ["tool"; "prefect"] (VTable d')
            = Some (VTable
                      [("home", VString "./.prefect");
                       ("profiles_path",
                        VString "./.prefect/profiles.toml")]).
Proof.
  apply (patch_pyproject_tool_prefect project_world manifest_with_other).
  vm_compute. reflexivity.
Defined.

Lemma patch_pyproject_preserves_top_level_witness :
  (patch_pyproject project_world).1 = Ret tt
  ∧ ∃ d', fs (patch_pyproject project_world).2
             !! ["home"; "demo"; "pyproject.toml"] = Some (EFile (Doc d'))
          ∧ ∀ k, k ≠ "tool" → dict_get k d' = dict_get k manifest_with_other.
Proof.
  apply (patch_pyproject_preserves_top_level project_world
           manifest_with_other).
  vm_compute. reflexivity.
Defined.

(** C1, as the specification has it, fails: the patch first binds [tool]
    to an empty table, so the [tool.other] table of this manifest is not
    in the document that is written. *)
Lemma patch_pyproject_drops_tool_other :
  fs project_world !! (cwd project_world ++ ["pyproject.toml"])
    = Some (EFile (Doc manifest_with_other))
  ∧ get_path ["tool"; "other"] (VTable manifest_with_other)
    = Some (VTable [("level", VInteger 3)])
  ∧ (patch_pyproject project_world).1 = Ret tt
  ∧ ∃ d', fs (patch_pyproject project_world).2
             !! (cwd project_world ++ ["pyproject.toml"])
            = Some (EFile (Doc d'))
          ∧ get_path ["tool"; "other"] (VTable d') = None.
Proof.
  split; [by vm_compute|]. split; [by vm_compute|]. split; [by vm_compute|].
  eexists. split; by vm_compute.
Qed.

Lemma copy_template_files_existing_destination_witness :
  (copy_template_files ["home"; "demo"] default_template
     empty_project_world).1 = Ret tt
  ∧ copy_template_files ["home"; "demo"] default_template
      empty_project_world
    = copy_template_files ["home"; "demo"] default_template
        (set_fs (delete ["home"; "demo"] (fs empty_project_world))
                empty_project_world).
Proof.
  apply (copy_template_files_existing_destination ["home"; "demo"] _
           empty_project_world).
  - vm_compute. reflexivity.
  - vm_compute. reflexivity.
  - apply (bool_decide_unpack _). vm_compute. reflexivity.
Defined.

Lemma init_create_project_fails_witness :
  init spawn_refusing "demo" sample_world
    = (Raise (Exit 1),
       World (environ sample_world) ["home"] (fs sample_world)
         [EvSpawn (uv_init "demo")
            (<["UV_VENV_SEED" := "True"]> (environ sample_world))
            ["home"] (Some 2%Z)])
  ∧ exit_status (init spawn_refusing "demo" sample_world).1 = 1%Z.
Proof.
  apply (init_create_project_fails spawn_refusing "demo" sample_world 2
           (fs sample_world)).
  - reflexivity.
  - lia.
Defined.

Lemma install_prefect_fallback_witness :
  cwd sample_created = ["home"]
  ∧ init spawn_offline "demo" sample_world
    = (Raise (CalledProcessError 2 uv_add_offline),
       World (environ sample_copied) (cwd sample_created) (fs sample_copied)
         (trace sample_copied ++
            [EvSpawn uv_add (environ sample_copied) (cwd sample_copied)
                     (Some 2%Z);
             EvSpawn uv_add_offline (environ sample_copied)
                     (cwd sample_copied) (Some 2%Z);
             EvChdir (cwd sample_created)])).
Proof.
  split; [vm_compute; reflexivity|].
  apply (proj2 (install_prefect_fallback spawn_offline)
           "demo" sample_world sample_created sample_copied
           2%Z (fs sample_copied) 2%Z (fs sample_copied)).
  - vm_compute. reflexivity.
  - vm_compute. reflexivity.
  - vm_compute. reflexivity.
  - reflexivity.
  - lia.
  - reflexivity.
  - lia.
  - vm_compute. reflexivity.
Defined.

(** * Further properties *)

(** ** The scoped environment override *)

(** X1. Inside the scope a variable reads as the overrides say: nothing
    for a removed name, the new value for an updated name that is not
    removed, and what it was before for every other name. *)
Theorem modified_environ_inside (remove : list string)
    (update : gmap string string) (w : world) (k : string) :
  (modified_environ remove update (env_get k) w).1
  = Ret (if decide (k ∈ remove) then None
         else match update !! k with
              | Some v => Some v
              | None => environ w !! k
              end).
Proof.
  rewrite modified_environ_run, modified_environ_enter_run. simpl.
  by rewrite lookup_env_inside.
Qed.

(** X2. Without names to remove and without updates the scope is its
    body: same outcome, same world, whatever the body does to the
    environment. *)
Theorem modified_environ_nothing {A} (body : M A) (w : world) :
  modified_environ [] ∅ body w = body w.
Proof.
  rewrite modified_environ_run, modified_environ_enter_run. simpl.
  assert (env_inside [] ∅ (environ w) = environ w) as ->.
  { unfold env_inside, pop_all. simpl. apply (left_id_L ∅ (∪)). }
  assert (set_environ (environ w) w = w) as -> by (by destruct w).
  destruct (body w) as [r w2]. simpl. f_equal.
  assert (env_restored [] ∅ (environ w) (environ w2) = environ w2) as ->.
  { apply map_eq. intros k. rewrite lookup_env_restored.
    rewrite decide_False; [done|].
    rewrite dom_empty_L. intros [Hk|[Hk _]].
    - by apply elem_of_empty in Hk.
    - by apply elem_of_nil in Hk. }
  by destruct w2.
Qed.

(** A scope around a body that keeps the environment keeps it. *)
Lemma modified_environ_keeps_environ {A} remove update (body : M A) :
  keeps_environ body → keeps_environ (modified_environ remove update body).
Proof.
  intros Hbody w. rewrite modified_environ_run. simpl.
  rewrite Hbody, modified_environ_enter_run. simpl.
  apply env_restored_inside.
Qed.

(** ** The scoped working-directory override *)

(** X3. When the starting directory is no longer there at the end of the
    body, the exit of the scope raises the error of [os.chdir], in place
    of the outcome of the body, and the process stays where the body left
    it. *)
Theorem ChangeDirectory_exit_fails {A} (target : path) (body : M A)
    (w : world) :
  let inside := set_cwd target (log (EvChdir target) w) in
  is_dir (fs w) target = true →
  is_dir (fs (body inside).2) (cwd w) = false →
  with_ChangeDirectory target body w
  = (Raise (OSError (cwd w)), log (EvChdir (cwd w)) (body inside).2)
  ∧ cwd (with_ChangeDirectory target body w).2 = cwd (body inside).2.
Proof.
  intros inside Htarget Hback.
  rewrite with_ChangeDirectory_run, Htarget. simpl.
  fold inside. by rewrite Hback.
Qed.

(** X4. The body of the scope runs in the target directory: a body that
    asks for the working directory gets the target, and the two
    directory changes of the scope are the entry and the return. *)
Theorem ChangeDirectory_inside (target : path) (w : world) :
  is_dir (fs w) target = true →
  is_dir (fs w) (cwd w) = true →
  with_ChangeDirectory target getcwd w
  = (Ret target,
     World (environ w) (cwd w) (fs w)
       (trace w ++ [EvChdir target; EvChdir (cwd w)])).
Proof.
  intros Htarget Hback.
  rewrite with_ChangeDirectory_run, Htarget. simpl. rewrite Hback.
  unfold set_cwd, log. simpl. by rewrite <- app_assoc.
Qed.

(** ** The manifest patch *)

(** X5. Without a manifest file in the working directory the patch
    raises the error of [open] and the file system is as before: no
    manifest is created. *)
Theorem patch_pyproject_no_manifest (w : world) :
  is_file (fs w) (cwd w ++ ["pyproject.toml"]) = false →
  patch_pyproject w
  = (Raise (OSError (cwd w ++ ["pyproject.toml"])),
     log (EvOpen (cwd w ++ ["pyproject.toml"]) ModeR) w).
Proof.
  intros Hfile. unfold patch_pyproject, is_file in *.
  rewrite bind_run. unfold open_r at 1.
  by destruct (fs w !! (cwd w ++ ["pyproject.toml"])) as [[|c]|].
Qed.

(** X6. A manifest that is not TOML makes the patch raise the decode
    error before the file is opened for writing: the file keeps its
    text, it is not truncated. *)
Theorem patch_pyproject_not_toml (w : world) (text : string) :
  fs w !! (cwd w ++ ["pyproject.toml"]) = Some (EFile (Text text)) →
  patch_pyproject w
  = (Raise TomlDecodeError,
     log (EvOpen (cwd w ++ ["pyproject.toml"]) ModeR) w).
Proof.
  intros Hfile. unfold patch_pyproject.
  rewrite bind_run. unfold open_r at 1. rewrite Hfile.
  rewrite bind_run. unfold toml_load at 1. simpl. by rewrite Hfile.
Qed.

(** X7. Patching twice writes the document that patching once writes. *)
Theorem patch_pyproject_twice (w : world) (d : table) :
  fs w !! (cwd w ++ ["pyproject.toml"]) = Some (EFile (Doc d)) →
  ((patch_pyproject;; patch_pyproject) w).1 = Ret tt
  ∧ fs ((patch_pyproject;; patch_pyproject) w).2 = fs (patch_pyproject w).2.
Proof.
  intros Hfile. rewrite bind_run, (patch_pyproject_run w d Hfile).
  erewrite patch_pyproject_run; [|apply lookup_insert_eq].
  simpl. by rewrite dict_set_set, insert_insert_eq.
Qed.

(** ** The template copy, on any file system *)

Lemma effect_refl q f p : effect q f f p.
Proof. repeat split; auto. Qed.

Lemma effect_trans q f1 f2 f3 p :
  effect q f1 f2 p → effect q f2 f3 p → effect q f1 f3 p.
Proof.
  intros (Hd1 & Hf1 & Ho1) (Hd2 & Hf2 & Ho2). repeat split; [auto..|].
  intros Hq. destruct (Ho1 Hq) as [E1|(N1 & D1 & P1)];
    destruct (Ho2 Hq) as [E2|(N2 & D2 & P2)].
  - left. congruence.
  - right. rewrite <- E1. done.
  - right. rewrite E2. done.
  - congruence.
Qed.

Lemma effect_child q n f f' p :
  effect (q ++ [n]) f f' p → effect q f f' p.
Proof.
  intros (Hd & Hf & Ho). repeat split; [auto..|].
  intros Hq. destruct Ho as [E|(N & D & P)].
  - intros Hsn. apply Hq. by apply prefix_app_l in Hsn.
  - by left.
  - right. repeat split; [done..|].
    apply prefix_snoc_inv in P as [->|P]; [|done].
    exfalso. apply Hq. by apply prefix_app_r.
Qed.

Lemma effect_insert_dir q f p :
  f !! q = None → effect q f (<[q:=EDir]> f) p.
Proof.
  intros Hq. unfold effect, is_dir, is_file.
  destruct (decide (p = q)) as [->|Hne].
  - rewrite lookup_insert_eq, Hq. repeat split; [done..|].
    intros []. done.
  - rewrite lookup_insert_ne by done. repeat split; auto.
Qed.

Lemma makedirs_from_effect base rest f f1 p :
  makedirs_from base rest f = Some f1 → effect (base ++ rest) f f1 p.
Proof.
  revert base f. induction rest as [|n rest IH]; intros base f Hmk;
    simpl in Hmk.
  - rewrite app_nil_r.
    destruct (f !! base) as [[|c]|] eqn:Hb; simplify_eq.
    + apply effect_refl.
    + by apply effect_insert_dir.
  - replace (base ++ n :: rest) with ((base ++ [n]) ++ rest)
      by (by rewrite <- app_assoc).
    destruct (f !! base) as [[|c]|] eqn:Hb; [|done|].
    + by apply IH.
    + eapply effect_trans; [|by apply IH].
      pose proof (effect_insert_dir base f p Hb) as (Hd & Hf & Ho).
      repeat split; [done..|]. intros Hq.
      destruct (decide (p = base)) as [->|Hne].
      * right. rewrite lookup_insert_eq. repeat split; [done..|].
        rewrite <- app_assoc. by apply prefix_app_r.
      * left. by apply lookup_insert_ne.
Qed.

Lemma makedirs_effect q f f1 p : makedirs q f = Some f1 → effect q f f1 p.
Proof. apply (makedirs_from_effect [] q). Qed.

Lemma copy2_effect text q f p : effect q f (copy2 text q f).1 p.
Proof.
  unfold copy2. destruct (f !! q) as [[|c]|] eqn:Hq; simpl.
  - apply effect_refl.
  - unfold effect, is_dir, is_file. destruct (decide (p = q)) as [->|Hne].
    + rewrite lookup_insert_eq, Hq. repeat split; [done..|]. by intros [].
    + rewrite lookup_insert_ne by done. repeat split; auto.
  - unfold effect, is_dir, is_file. destruct (decide (p = q)) as [->|Hne].
    + rewrite lookup_insert_eq, Hq. repeat split; [done..|]. by intros [].
    + rewrite lookup_insert_ne by done. repeat split; auto.
Qed.

Lemma copy_entries_effect children :
  Forall (λ c, ∀ q f p, effect q f (copy_node c.2 q f).1 p) children →
  ∀ q f p, effect q f (copy_entries copy_node children q f).1 p.
Proof.
  induction 1 as [|[n t] children Ht _ IH]; intros q f p; simpl.
  - apply effect_refl.
  - specialize (Ht (q ++ [n]) f p). simpl in Ht.
    destruct (copy_node t (q ++ [n]) f) as [f1 e1]. simpl in Ht.
    specialize (IH q f1 p).
    destruct (copy_entries copy_node children q f1) as [f2 e2].
    simpl in *. eapply effect_trans; [|done]. by eapply effect_child.
Qed.

Lemma copy_node_effect t q f p : effect q f (copy_node t q f).1 p.
Proof.
  revert q f p. induction t as [text|children IH] using tree_rect_nested;
    intros q f p; simpl.
  - apply copy2_effect.
  - destruct (makedirs q f) as [f1|] eqn:Hmk; [|apply effect_refl].
    eapply effect_trans; [by apply makedirs_effect|].
    by apply copy_entries_effect.
Qed.

Lemma mkdir_run_fs p w :
  (mkdir p w).2 = set_fs (fs (mkdir p w).2) w.
Proof.
  unfold mkdir. destruct (makedirs p (fs w)); simpl; by destruct w.
Qed.

(** What [copy_template_files] does to the file system, on every run. *)
Lemma copy_template_files_effect destination source w p :
  effect destination (fs w)
         (fs (copy_template_files destination source w).2) p.
Proof.
  unfold copy_template_files. rewrite bind_run. unfold mkdir at 1.
  destruct (makedirs destination (fs w)) as [f0|] eqn:Hmk;
    [|apply effect_refl].
  eapply effect_trans; [by apply makedirs_effect|].
  unfold copytree. simpl. destruct source as [text|children];
    [apply effect_refl|].
  destruct (makedirs destination f0) as [f1|] eqn:Hmk1;
    [|apply effect_refl].
  eapply effect_trans; [by apply makedirs_effect|].
  pose proof (copy_entries_effect children
                (proj2 (Forall_forall _ _) (λ c _, copy_node_effect c.2))
                destination f1 p) as He.
  destruct (copy_entries copy_node children destination f1) as [f2 errors].
  by destruct errors.
Qed.

Lemma copy_template_files_keeps destination source w :
  environ (copy_template_files destination source w).2 = environ w
  ∧ cwd (copy_template_files destination source w).2 = cwd w.
Proof.
  assert (∃ f' tr, (copy_template_files destination source w).2
                   = World (environ w) (cwd w) f' tr) as (f' & tr & ->);
    [|done].
  unfold copy_template_files. rewrite bind_run. unfold mkdir at 1.
  destruct (makedirs destination (fs w)); simpl;
    [|by destruct w; eauto].
  unfold copytree. destruct source as [text|children]; simpl; [by eauto|].
  destruct (makedirs _ _); simpl; [|by eauto].
  destruct (copy_entries _ _ _ _) as [f2 errors].
  destruct errors; simpl; eauto.
Qed.

(** X8. Whether it succeeds or not, the copy writes no file outside of
    the destination: a path that is not at or below the destination
    holds what it held, or was missing and is now a directory above the
    destination. The environment and the working directory are not
    touched. *)
Theorem copy_template_files_frame (destination : path) (source : tree)
    (w : world) (p : path) :
  let w' := (copy_template_files destination source w).2 in
  ¬ destination `prefix_of` p →
  (fs w' !! p = fs w !! p
   ∨ (fs w !! p = None ∧ fs w' !! p = Some EDir
      ∧ p `prefix_of` destination))
  ∧ environ w' = environ w ∧ cwd w' = cwd w.
Proof.
  intros w' Hp. split.
  - by apply (copy_template_files_effect destination source w p).
  - by apply copy_template_files_keeps.
Qed.

(** X9. Whether it succeeds or not, the copy removes nothing and changes
    the kind of nothing: what was a directory is a directory afterwards,
    what was a file is a file afterwards. *)
Theorem copy_template_files_keeps_kinds (destination : path)
    (source : tree) (w : world) (p : path) :
  let w' := (copy_template_files destination source w).2 in
  (is_dir (fs w) p = true → is_dir (fs w') p = true)
  ∧ (is_file (fs w) p = true → is_file (fs w') p = true).
Proof.
  intros w'.
  destruct (copy_template_files_effect destination source w p)
    as (Hd & Hf & _).
  by split.
Qed.

Lemma is_file_true f p : is_file f p = true ↔ ∃ c, f !! p = Some (EFile c).
Proof.
  unfold is_file. destruct (f !! p) as [[|c]|]; split;
    try congruence; eauto; by intros [? ?].
Qed.

(** A regular file on the way stops [makedirs]. *)
Lemma makedirs_from_blocked base rest f q :
  base `prefix_of` q → q `prefix_of` base ++ rest → is_file f q = true →
  makedirs_from base rest f = None.
Proof.
  revert base f. induction rest as [|n rest IH]; intros base f Hb Hq Hfile;
    simpl.
  - rewrite app_nil_r in Hq.
    assert (q = base) as -> by (by apply (anti_symm prefix)).
    apply is_file_true in Hfile as [c ->]. done.
  - destruct (decide (q = base)) as [->|Hne].
    { apply is_file_true in Hfile as [c ->]. done. }
    assert (base ++ [n] `prefix_of` q) as Hbn.
    { destruct Hb as [k ->]. destruct k as [|x k].
      - by rewrite app_nil_r in Hne.
      - destruct Hq as [k' Hk']. rewrite <- !app_assoc in Hk'.
        apply app_inv_head in Hk'. simpl in Hk'. injection Hk' as -> _.
        exists k. by rewrite <- app_assoc. }
    assert (q `prefix_of` (base ++ [n]) ++ rest) as Hq'
      by (by rewrite <- app_assoc).
    destruct (f !! base) as [[|c]|] eqn:Hbase; [|done|].
    + by apply (IH (base ++ [n])).
    + apply (IH (base ++ [n])); [done..|].
      unfold is_file in *. by rewrite lookup_insert_ne.
Qed.

(** X10. When the destination or a directory above it is a regular file,
    the copy raises the error of [mkdir] and nothing is changed. *)
Theorem copy_template_files_blocked (destination : path) (source : tree)
    (w : world) (q : path) :
  q `prefix_of` destination → is_file (fs w) q = true →
  copy_template_files destination source w
  = (Raise (OSError destination), w).
Proof.
  intros Hq Hfile. unfold copy_template_files. rewrite bind_run.
  unfold mkdir, makedirs.
  rewrite (makedirs_from_blocked [] destination (fs w) q);
    [done|apply prefix_nil|done..].
Qed.



(** One entry of a listing copied into an existing, empty place: what it
    gives and what holds for the entries that follow. *)
Lemma copy_entries_step n t children q f :
  NoDup ((n, t) :: children).*1 →
  wf_tree t = true →
  above q f → f !! q = Some EDir →
  (∀ n', n' ∈ ((n, t) :: children).*1 → vacant (q ++ [n']) f) →
  ∃ f1, copy_node t (q ++ [n]) f = (f1, [])
        ∧ (∀ p, ¬ q ++ [n] `prefix_of` p → f1 !! p = f !! p)
        ∧ above (q ++ [n]) f ∧ vacant (q ++ [n]) f
        ∧ above q f1 ∧ f1 !! q = Some EDir
        ∧ (∀ n', n' ∈ children.*1 → vacant (q ++ [n']) f1).
Proof.
  intros Hnodup Hwt Habove Hq Hvac. simpl in *.
  apply NoDup_cons in Hnodup as [Hn Hnodup].
  assert (above (q ++ [n]) f) as Habove'.
  { intros p Hp Hne. apply prefix_snoc_inv in Hp as [->|Hp]; [done|].
    destruct (decide (p = q)) as [->|Hpq]; [done|by apply Habove]. }
  assert (vacant (q ++ [n]) f) as Hvac' by (apply Hvac; by left).
  destruct (copy_node_ok t (q ++ [n]) f) as (f1 & Hcopy & Hframe);
    [done..|].
  exists f1. repeat split; [done..| | |].
  - intros p Hp Hne. rewrite Hframe; [by apply Habove|].
    intros Hsn. by apply (prefix_snoc_above p q n).
  - rewrite Hframe; [done|]. apply prefix_snoc_not.
  - intros n' Hn' p Hp. rewrite Hframe; [apply (Hvac n'); [by right|done]|].
    intros Hsn. assert (n = n') as -> by (eapply prefix_snoc_sibling;
                                           eassumption).
    done.
Qed.

Lemma copy_entries_post children :
  Forall (λ c, copies_all c.2) children →
  ∀ q f,
    NoDup children.*1 →
    forallb (λ c, wf_tree c.2) children = true →
    above q f → f !! q = Some EDir →
    (∀ n, n ∈ children.*1 → vacant (q ++ [n]) f) →
    ∀ n tc r t',
      tree_child n children = Some tc → tree_lookup r tc = Some t' →
      (copy_entries copy_node children q f).1 !! ((q ++ [n]) ++ r)
      = Some (entry_of t').
Proof.
  induction 1 as [|[n0 t0] children Ht _ IH];
    intros q f Hnodup Hwf Habove Hq Hvac n tc r t' Hchild Hlook;
    [done|].
  simpl in Hwf. apply andb_prop in Hwf as [Hwt Hwf].
  destruct (copy_entries_step n0 t0 children q f)
    as (f1 & Hcopy & Hframe & Habove0 & Hvac0 & Habove1 & Hq1 & Hvac1);
    [done..|].
  pose proof Hnodup as Hnodup'. simpl in Hnodup'.
  apply NoDup_cons in Hnodup' as [Hn0 Hnodup'].
  destruct (copy_entries_ok children
              (proj2 (Forall_forall _ _) (λ c _, copy_node_ok c.2)) q f1)
    as (f2 & Hrest & Hframe2); [done..|].
  simpl in Hchild. simpl copy_entries.
  destruct (decide (n = n0)) as [->|Hne].
  - injection Hchild as <-.
    specialize (Ht (q ++ [n0]) f Hwt Habove0 Hvac0 r t' Hlook).
    simpl in Ht. rewrite Hcopy in *. rewrite Hrest. simpl in *.
    rewrite Hframe2; [done|].
    intros n' Hn' Hsn. apply Hn0.
    assert (n' = n0) as <-; [|done].
    eapply prefix_snoc_sibling; [done|]. by apply prefix_app_r.
  - specialize (IH q f1 Hnodup' Hwf Habove1 Hq1 Hvac1 n tc r t'
                  Hchild Hlook).
    rewrite Hcopy. by destruct (copy_entries copy_node children q f1).
Qed.

Lemma copy_node_post t : copies_all t.
Proof.
  induction t as [text|children IH] using tree_rect_nested;
    intros q f Hwf Habove Hvac r t' Hlook.
  - destruct r as [|n r]; [|done]. injection Hlook as <-.
    simpl. unfold copy2. rewrite (Hvac q) by done. simpl.
    by rewrite app_nil_r, lookup_insert_eq.
  - simpl in Hwf. apply andb_prop in Hwf as [Hnodup Hwf].
    apply bool_decide_eq_true in Hnodup.
    simpl copy_node. rewrite (makedirs_last q f); [|done|by left; apply Hvac].
    assert (above q (<[q:=EDir]> f)) as Habove1.
    { intros p Hp Hne. rewrite lookup_insert_ne by done. by apply Habove. }
    assert (∀ n, n ∈ children.*1 → vacant (q ++ [n]) (<[q:=EDir]> f))
      as Hvac1.
    { intros n Hn p Hp.
      rewrite lookup_insert_ne
        by (intros Heq; by apply (prefix_snoc_ne p q n Hp)).
      apply Hvac. by apply prefix_app_l in Hp. }
    destruct r as [|n r].
    + injection Hlook as <-. rewrite app_nil_r.
      destruct (copy_entries_ok children
                  (proj2 (Forall_forall _ _) (λ c _, copy_node_ok c.2))
                  q (<[q:=EDir]> f))
        as (f2 & Hrest & Hframe2);
        [done..|apply lookup_insert_eq|done|].
      rewrite Hrest. simpl. rewrite Hframe2; [apply lookup_insert_eq|].
      intros n _. apply prefix_snoc_not.
    + simpl in Hlook.
      destruct (tree_child n children) as [tc|] eqn:Hchild; [|done].
      replace (q ++ n :: r) with ((q ++ [n]) ++ r)
        by (by rewrite <- app_assoc).
      by apply (copy_entries_post children IH q (<[q:=EDir]> f)
                  Hnodup Hwf Habove1 (lookup_insert_eq _ _ _) Hvac1
                  n tc r t').
Qed.

(** X12. After the copy into a directory that exists and is empty,
    everything the template holds is in the destination, at the same
    relative path: each file with its text, each directory as a
    directory. *)
Theorem copy_template_files_copies (destination : path)
    (children : list (string * tree)) (w : world) (r : path) (t : tree) :
  wf_tree (Dir children) = true →
  dir_exists destination (fs w) = true →
  empty_below destination (fs w) →
  tree_lookup r (Dir children) = Some t →
  fs (copy_template_files destination (Dir children) w).2
    !! (destination ++ r)
  = Some (entry_of t).
Proof.
  intros Hwf Hdir Hempty Hlook.
  assert (fs (copy_template_files destination (Dir children) w).2
          = (copy_entries copy_node children destination (fs w)).1) as ->.
  { unfold copy_template_files.
    rewrite bind_run, mkdir_existing by done.
    unfold copytree, makedirs. simpl.
    rewrite (makedirs_from_existing [] destination (fs w) Hdir).
    destruct (copy_entries _ _ _ _) as [f2 errors]. by destruct errors. }
  simpl in Hwf. apply andb_prop in Hwf as [Hnodup Hwf].
  apply bool_decide_eq_true in Hnodup.
  pose proof (dir_exists_above _ _ Hdir) as Habove.
  pose proof (dir_exists_is_dir _ _ Hdir) as Hd.
  assert (∀ n, n ∈ children.*1 → vacant (destination ++ [n]) (fs w))
    as Hvac by (intros n _; by apply empty_below_vacant).
  destruct r as [|n r].
  - injection Hlook as <-. rewrite app_nil_r.
    destruct (copy_entries_ok children
                (proj2 (Forall_forall _ _) (λ c _, copy_node_ok c.2))
                destination (fs w))
      as (f2 & Hrest & Hframe2); [done..|].
    rewrite Hrest. simpl. rewrite Hframe2; [done|].
    intros n _. apply prefix_snoc_not.
  - simpl in Hlook.
    destruct (tree_child n children) as [tc|] eqn:Hchild; [|done].
    replace (destination ++ n :: r) with ((destination ++ [n]) ++ r)
      by (by rewrite <- app_assoc).
    by apply (copy_entries_post children
                (proj2 (Forall_forall _ _) (λ c _, copy_node_post c.2))
                destination (fs w) Hnodup Hwf Habove Hd Hvac n tc r t).
Qed.

(** ** The environment across [init] *)

Lemma keeps_environ_ret {A} (a : A) : keeps_environ (mret (M := M) a).
Proof. by intros w. Qed.

Lemma keeps_environ_raise {A} (e : exn) : keeps_environ (raise (A := A) e).
Proof. by intros w. Qed.

Lemma keeps_environ_bind {A B} (m : M A) (k : A → M B) :
  keeps_environ m → (∀ a, keeps_environ (k a)) → keeps_environ (m ≫= k).
Proof.
  intros Hm Hk w. rewrite bind_run. specialize (Hm w).
  destruct (m w) as [[a|e] w1]; simpl in *; [|done].
  by rewrite Hk.
Qed.

Lemma keeps_environ_try_finally {A} (body : M A) (fin : M unit) :
  keeps_environ body → keeps_environ fin →
  keeps_environ (try_finally body fin).
Proof.
  intros Hbody Hfin w. unfold try_finally.
  specialize (Hbody w). destruct (body w) as [r w1]. simpl in *.
  specialize (Hfin w1). destruct (fin w1) as [[[]|e] w2]; simpl in *;
    congruence.
Qed.

Lemma keeps_environ_try_except {A} (body : M A) catches (handler : M A) :
  keeps_environ body → keeps_environ handler →
  keeps_environ (try_except body catches handler).
Proof.
  intros Hbody Hhandler w. unfold try_except.
  specialize (Hbody w). destruct (body w) as [[a|e] w1]; simpl in *;
    [done|].
  destruct (catches e); [|done]. by rewrite Hhandler.
Qed.

Lemma keeps_environ_with {S A} (enter : M S) (exit : S → M unit)
    (body : M A) :
  keeps_environ enter → (∀ s, keeps_environ (exit s)) → keeps_environ body →
  keeps_environ (with_ enter exit body).
Proof.
  intros Henter Hexit Hbody. apply keeps_environ_bind; [done|].
  intros s. by apply keeps_environ_try_finally.
Qed.

Lemma keeps_environ_chdir p : keeps_environ (chdir p).
Proof. intros w. unfold chdir. by destruct (is_dir _ _). Qed.

Lemma keeps_environ_with_ChangeDirectory {A} p (body : M A) :
  keeps_environ body → keeps_environ (with_ChangeDirectory p body).
Proof.
  intros Hbody. apply keeps_environ_bind.
  { apply keeps_environ_bind; [done|]. intros. apply keeps_environ_ret. }
  intros cd. apply keeps_environ_with; [|intros; apply keeps_environ_chdir
                                         |done].
  apply keeps_environ_bind; [done|]. intros here.
  apply keeps_environ_bind; [apply keeps_environ_chdir|].
  intros. apply keeps_environ_ret.
Qed.

Lemma keeps_environ_patch_pyproject : keeps_environ patch_pyproject.
Proof.
  apply keeps_environ_bind.
  { intros w. unfold open_r. by destruct (fs w !! _) as [[|c]|]. }
  intros f. apply keeps_environ_bind.
  { intros w. unfold toml_load. by destruct (fs w !! f) as [[|[s|d]]|]. }
  intros d. apply keeps_environ_bind.
  { unfold dict_set_in. destruct (dict_get _ _) as [[]|];
      by auto using keeps_environ_ret, keeps_environ_raise. }
  intros d'. apply keeps_environ_bind; [|by intros].
  intros w. unfold open_w.
  destruct (fs w !! _) as [[|c]|]; [done..|]. by destruct (is_dir _ _).
Qed.

Section InitFurther.

Context (spawn : list string → gmap string string → path →
                 gmap path entry → option (Z * gmap path entry)).

Lemma keeps_environ_subprocess_run argv :
  keeps_environ (subprocess_run spawn argv).
Proof. intros w. apply subprocess_run_environ. Qed.

Lemma keeps_environ_create_project name :
  keeps_environ (create_project spawn name).
Proof.
  apply keeps_environ_try_except; [|apply keeps_environ_raise].
  apply modified_environ_keeps_environ, keeps_environ_subprocess_run.
Qed.

Lemma keeps_environ_install_prefect :
  keeps_environ (install_prefect spawn).
Proof.
  apply keeps_environ_with; [apply keeps_environ_ret
                            |intros; apply keeps_environ_ret|].
  apply keeps_environ_try_except; apply keeps_environ_subprocess_run.
Qed.

(** X13. On every run of [init], with any package manager, on success
    and on every failure, the environment afterwards is the environment
    of before: the seed variable of the project creation does not stay. *)
Theorem init_keeps_environ (name : string) (w : world) :
  environ (init spawn name w).2 = environ w.
Proof.
  revert w. change (keeps_environ (init spawn name)).
  apply keeps_environ_bind; [apply keeps_environ_create_project|].
  intros _. apply keeps_environ_bind; [done|]. intros here.
  apply keeps_environ_with_ChangeDirectory.
  apply keeps_environ_bind; [done|]. intros here'.
  apply keeps_environ_bind.
  { intros w. apply copy_template_files_keeps. }
  intros _. apply keeps_environ_bind; [apply keeps_environ_install_prefect|].
  intros _. apply keeps_environ_bind; [apply keeps_environ_patch_pyproject|].
  by intros _ w.
Qed.

Lemma create_project_cwd name w :
  cwd (create_project spawn name w).2 = cwd w.
Proof.
  rewrite create_project_run. simpl.
  destruct (spawn _ _ _ _) as [[code f]|]; [|done].
  by destruct (decide (code = 0%Z)).
Qed.

(** X14. On every run of [init], when the directory it was started in is
    still there at the end, the process is back in it. *)
Theorem init_restores_cwd (name : string) (w : world) :
  is_dir (fs (init spawn name w).2) (cwd w) = true →
  cwd (init spawn name w).2 = cwd w.
Proof.
  destruct (init spawn name w) as [r w'] eqn:Hinit. simpl.
  unfold init in Hinit. rewrite bind_run in Hinit.
  pose proof (create_project_cwd name w) as Hcwd.
  destruct (create_project spawn name w) as [[[]|e] w1]; simpl in Hcwd;
    [|by injection Hinit as _ <-].
  rewrite bind_run in Hinit. unfold getcwd at 1 in Hinit.
  rewrite with_ChangeDirectory_run in Hinit.
  destruct (is_dir (fs w1) (cwd w1 ++ [name]));
    [|by injection Hinit as _ <-].
  cbv zeta in Hinit. rewrite Hcwd in Hinit.
  destruct (is_dir _ (cwd w)) eqn:Hback; injection Hinit as _ <-;
    simpl; [done|].
  intros Hdir. congruence.
Qed.

(** X15. When the first [uv add] exits with a status other than 0 and
    the offline one exits with 0, the dependency installation succeeds:
    the error of the first attempt is dropped, both children have run in
    this order, in the same environment and directory, the second on the
    file system the first left. *)
Theorem install_prefect_fallback_succeeds (w : world) (c1 : Z)
    (f1 f2 : gmap path entry) :
  spawn uv_add (environ w) (cwd w) (fs w) = Some (c1, f1) →
  c1 ≠ 0%Z →
  spawn uv_add_offline (environ w) (cwd w) f1 = Some (0%Z, f2) →
  install_prefect spawn w
  = (Ret tt,
     World (environ w) (cwd w) f2
       (trace w ++ [EvSpawn uv_add (environ w) (cwd w) (Some c1);
                    EvSpawn uv_add_offline (environ w) (cwd w)
                            (Some 0%Z)])).
Proof.
  intros Hadd Hc1 Hoffline.
  rewrite install_prefect_run, Hadd, decide_False by done.
  unfold subprocess_run. cbn [environ cwd fs log set_fs].
  rewrite Hoffline. simpl. unfold log, set_fs. simpl.
  by rewrite <- app_assoc.
Qed.

(** X16. When [uv] cannot be started at all, the project creation raises
    the error of the operating system, which the handler of
    [CalledProcessError] does not catch: [init] ends with it (exit status
    1) after that one attempt, and nothing else is done. *)
Theorem init_uv_not_started (name : string) (w : world) :
  let env1 := <["UV_VENV_SEED" := "True"]> (environ w) in
  spawn (uv_init name) env1 (cwd w) (fs w) = None →
  init spawn name w
  = (Raise (OSError ["uv"]),
     log (EvSpawn (uv_init name) env1 (cwd w) None) w)
  ∧ exit_status (init spawn name w).1 = 1%Z.
Proof.
  intros env1 Hspawn.
  assert (init spawn name w
          = (Raise (OSError ["uv"]),
             log (EvSpawn (uv_init name) env1 (cwd w) None) w)) as ->;
    [|done].
  unfold init. rewrite bind_run, create_project_run. fold env1.
  by rewrite Hspawn.
Qed.

(** X17. When [uv init] reports success but the project directory is not
    there, [init] ends with the error of [os.chdir]: the working
    directory is unchanged and nothing is copied, installed or patched. *)
Theorem init_project_missing (name : string) (w w1 : world) :
  create_project spawn name w = (Ret tt, w1) →
  is_dir (fs w1) (cwd w1 ++ [name]) = false →
  init spawn name w
  = (Raise (OSError (cwd w1 ++ [name])),
     log (EvChdir (cwd w1 ++ [name])) w1)
  ∧ cwd (init spawn name w).2 = cwd w.
Proof.
  intros Hcreate Hproject.
  pose proof (create_project_cwd name w) as Hcwd.
  rewrite Hcreate in Hcwd. simpl in Hcwd.
  assert (init spawn name w
          = (Raise (OSError (cwd w1 ++ [name])),
             log (EvChdir (cwd w1 ++ [name])) w1)) as ->; [|done].
  unfold init. rewrite bind_run, Hcreate, bind_run.
  unfold getcwd at 1.
  by rewrite with_ChangeDirectory_run, Hproject.
Qed.

(** X18. The child process of the project creation, and only it, sees
    the seed variable: it runs [uv init] with [UV_VENV_SEED] set to
    [True] over the environment of the caller, and whatever its outcome
    the environment afterwards is the one of before. *)
Theorem create_project_seed (name : string) (w : world) :
  let env1 := <["UV_VENV_SEED" := "True"]> (environ w) in
  trace (create_project spawn name w).2
  = trace w ++ [EvSpawn (uv_init name) env1 (cwd w)
                        (fst <$> spawn (uv_init name) env1 (cwd w) (fs w))]
  ∧ environ (create_project spawn name w).2 = environ w.
Proof.
  intros env1. split; [|apply keeps_environ_create_project].
  rewrite create_project_run. fold env1.
  destruct (spawn _ _ _ _) as [[code f]|]; [|done].
  by destruct (decide (code = 0%Z)).
Qed.

(** X19. The run of [init] that succeeds. When the project is created
    and entered, the template is copied, the dependency installation
    succeeds and leaves a manifest that parses, [init] returns (exit
    status 0), back in the starting directory; the manifest is that
    document with its [tool] table set to the settings of prefect, and
    what was done after the installation is, in order: the manifest read,
    the manifest written, the message, the return. *)
Theorem init_succeeds (name : string) (w w1 w2 w3 : world) (d : table) :
  let project := cwd w1 ++ [name] in
  let manifest := project ++ ["pyproject.toml"] in
  create_project spawn name w = (Ret tt, w1) →
  is_dir (fs w1) project = true →
  copy_template_files project default_template
    (set_cwd project (log (EvChdir project) w1)) = (Ret tt, w2) →
  install_prefect spawn w2 = (Ret tt, w3) →
  cwd w3 = project →
  fs w3 !! manifest = Some (EFile (Doc d)) →
  is_dir (fs w3) (cwd w1) = true →
  init spawn name w
  = (Ret tt,
     World (environ w3) (cwd w1)
       (<[manifest :=
            EFile (Doc (dict_set "tool"
                          (VTable [("prefect", prefect_settings)]) d))]>
          (fs w3))
       (trace w3 ++ [EvOpen manifest ModeR; EvOpen manifest ModeW;
                     EvPrint name project; EvChdir (cwd w1)]))
  ∧ exit_status (init spawn name w).1 = 0%Z.
Proof.
  intros project manifest Hcreate Hproject Hcopy Hinstall Hcwd Hfile Hback.
  assert (init_in_project spawn name
            (set_cwd project (log (EvChdir project) w1))
          = (Ret tt,
             World (environ w3) project
               (<[manifest :=
                    EFile (Doc (dict_set "tool"
                              (VTable [("prefect", prefect_settings)]) d))]>
                  (fs w3))
               (trace w3 ++ [EvOpen manifest ModeR; EvOpen manifest ModeW;
                             EvPrint name project]))) as Hbody.
  { unfold init_in_project. rewrite bind_run. unfold getcwd at 1.
    cbn [cwd set_cwd]. rewrite bind_run, Hcopy, bind_run, Hinstall.
    rewrite bind_run, (patch_pyproject_run w3 d) by (by rewrite Hcwd).
    rewrite Hcwd. fold manifest.
    unfold console_print_success, log. simpl. by rewrite <- app_assoc. }
  assert (init spawn name w
  = (Ret tt,
     World (environ w3) (cwd w1)
       (<[manifest :=
            EFile (Doc (dict_set "tool"
                          (VTable [("prefect", prefect_settings)]) d))]>
          (fs w3))
       (trace w3 ++ [EvOpen manifest ModeR; EvOpen manifest ModeW;
                     EvPrint name project; EvChdir (cwd w1)]))) as ->;
    [|done].
  unfold init. rewrite bind_run, Hcreate, bind_run.
  unfold getcwd at 1. fold project.
  rewrite with_ChangeDirectory_run, Hproject.
  cbv zeta. rewrite Hbody. cbn [fst snd fs].
  assert (is_dir (<[manifest:=EFile (Doc (dict_set "tool"
            (VTable [("prefect", prefect_settings)]) d))]> (fs w3)) (cwd w1)
          = true) as ->.
  { unfold is_dir in *. rewrite lookup_insert_ne; [done|].
    unfold manifest, project. intros Heq%(f_equal length).
    rewrite !length_app in Heq. simpl in Heq. lia. }
  unfold log, set_cwd. simpl. by rewrite <- app_assoc.
Qed.

End InitFurther.

(** * The further properties at the sample runs *)

Lemma ChangeDirectory_exit_fails_witness :
  with_ChangeDirectory ["home"; "demo"]
    (λ w, (Ret tt, set_fs (delete ["home"] (fs w)) w)) empty_project_world
  = (Raise (OSError ["home"]),
     log (EvChdir ["home"])
       (set_fs (delete ["home"] (fs empty_project_world))
          (set_cwd ["home"; "demo"]
             (log (EvChdir ["home"; "demo"]) empty_project_world))))
  ∧ cwd (with_ChangeDirectory ["home"; "demo"]
           (λ w, (Ret tt, set_fs (delete ["home"] (fs w)) w))
           empty_project_world).2 = ["home"; "demo"].
Proof.
  apply (ChangeDirectory_exit_fails ["home"; "demo"]
           (λ w, (Ret tt, set_fs (delete ["home"] (fs w)) w))
           empty_project_world).
  - vm_compute. reflexivity.
  - vm_compute. reflexivity.
Defined.

Lemma ChangeDirectory_inside_witness :
  with_ChangeDirectory ["home"; "demo"] getcwd empty_project_world
  = (Ret ["home"; "demo"],
     World (environ empty_project_world) ["home"] (fs empty_project_world)
       [EvChdir ["home"; "demo"]; EvChdir ["home"]]).
Proof.
  apply (ChangeDirectory_inside ["home"; "demo"] empty_project_world).
  - vm_compute. reflexivity.
  - vm_compute. reflexivity.
Defined.

Lemma patch_pyproject_no_manifest_witness :
  patch_pyproject sample_world
  = (Raise (OSError ["home"; "pyproject.toml"]),
     log (EvOpen ["home"; "pyproject.toml"] ModeR) sample_world).
Proof.
  apply (patch_pyproject_no_manifest sample_world).
  vm_compute. reflexivity.
Defined.

Lemma patch_pyproject_not_toml_witness :
  patch_pyproject broken_manifest_world
  = (Raise TomlDecodeError,
     log (EvOpen ["home"; "demo"; "pyproject.toml"] ModeR)
         broken_manifest_world).
Proof.
  apply (patch_pyproject_not_toml broken_manifest_world "[tool").
  vm_compute. reflexivity.
Defined.

Lemma patch_pyproject_twice_witness :
  ((patch_pyproject;; patch_pyproject) project_world).1 = Ret tt
  ∧ fs ((patch_pyproject;; patch_pyproject) project_world).2
    = fs (patch_pyproject project_world).2.
Proof.
  apply (patch_pyproject_twice project_world manifest_with_other).
  vm_compute. reflexivity.
Defined.

Lemma copy_template_files_frame_witness :
  (fs (copy_template_files ["home"; "demo"] default_template
         clashing_world).2 !! ["home"; "other"]
   = fs clashing_world !! ["home"; "other"]
   ∨ (fs clashing_world !! ["home"; "other"] = None
      ∧ fs (copy_template_files ["home"; "demo"] default_template
              clashing_world).2 !! ["home"; "other"] = Some EDir
      ∧ ["home"; "other"] `prefix_of` ["home"; "demo"]))
  ∧ environ (copy_template_files ["home"; "demo"] default_template
               clashing_world).2 = environ clashing_world
  ∧ cwd (copy_template_files ["home"; "demo"] default_template
           clashing_world).2 = cwd clashing_world.
Proof.
  apply (copy_template_files_frame ["home"; "demo"] default_template
           clashing_world ["home"; "other"]).
  apply (bool_decide_unpack _). vm_compute. reflexivity.
Defined.

Lemma copy_template_files_keeps_kinds_witness :
  is_file (fs (copy_template_files ["home"; "demo"] default_template
                 clashing_world).2) ["home"; "demo"; "src"] = true.
Proof.
  apply (proj2 (copy_template_files_keeps_kinds ["home"; "demo"]
                  default_template clashing_world ["home"; "demo"; "src"])).
  vm_compute. reflexivity.
Defined.

Lemma copy_template_files_blocked_witness :
  copy_template_files ["home"; "demo"; "src"; "flows"] default_template
    clashing_world
  = (Raise (OSError ["home"; "demo"; "src"; "flows"]), clashing_world).
Proof.
  apply (copy_template_files_blocked ["home"; "demo"; "src"; "flows"]
           default_template clashing_world ["home"; "demo"; "src"]).
  - apply (bool_decide_unpack _). vm_compute. reflexivity.
  - vm_compute. reflexivity.
Defined.


Lemma copy_template_files_copies_witness :
  fs (copy_template_files ["home"; "demo"] default_template
        empty_project_world).2
    !! ["home"; "demo"; "src"; "tasks"; "hello.py"]
  = Some (EFile (Text (unlines [
       "from prefect import task"; ""; "";
       "@task";
       "def hello(name: str) -> str:";
       "    return f'Hello {name}!'"]))).
Proof.
  eapply (copy_template_files_copies ["home"; "demo"] _
            empty_project_world ["src"; "tasks"; "hello.py"] (File _)).
  - vm_compute. reflexivity.
  - vm_compute. reflexivity.
  - apply (bool_decide_unpack _). vm_compute. reflexivity.
  - reflexivity.
Defined.

Lemma init_restores_cwd_witness :
  cwd (init spawn_online "demo" sample_world).2 = ["home"].
Proof.
  apply (init_restores_cwd spawn_online "demo" sample_world).
  vm_compute. reflexivity.
Defined.

Lemma install_prefect_fallback_succeeds_witness :
  install_prefect spawn_cached project_world
  = (Ret tt,
     World (environ project_world) (cwd project_world) (fs project_world)
       [EvSpawn uv_add (environ project_world) (cwd project_world)
                (Some 2%Z);
        EvSpawn uv_add_offline (environ project_world) (cwd project_world)
                (Some 0%Z)]).
Proof.
  apply (install_prefect_fallback_succeeds spawn_cached project_world 2%Z
           (fs project_world) (fs project_world)).
  - reflexivity.
  - lia.
  - reflexivity.
Defined.

Lemma init_uv_not_started_witness :
  init spawn_missing "demo" sample_world
  = (Raise (OSError ["uv"]),
     log (EvSpawn (uv_init "demo")
            (<["UV_VENV_SEED" := "True"]> (environ sample_world))
            (cwd sample_world) None) sample_world)
  ∧ exit_status (init spawn_missing "demo" sample_world).1 = 1%Z.
Proof.
  apply (init_uv_not_started spawn_missing "demo" sample_world).
  reflexivity.
Defined.

Lemma init_project_missing_witness :
  init spawn_idle "demo" sample_world
  = (Raise (OSError
              (cwd (create_project spawn_idle "demo" sample_world).2
               ++ ["demo"])),
     log (EvChdir
            (cwd (create_project spawn_idle "demo" sample_world).2
             ++ ["demo"]))
         (create_project spawn_idle "demo" sample_world).2)
  ∧ cwd (init spawn_idle "demo" sample_world).2 = cwd sample_world.
Proof.
  apply (init_project_missing spawn_idle "demo" sample_world
           (create_project spawn_idle "demo" sample_world).2).
  - vm_compute. reflexivity.
  - vm_compute. reflexivity.
Defined.

Lemma init_succeeds_witness :
  init spawn_online "demo" sample_world
  = (Ret tt,
     World (environ online_installed) (cwd online_created)
       (<[(cwd online_created ++ ["demo"]) ++ ["pyproject.toml"] :=
            EFile (Doc (dict_set "tool"
                          (VTable [("prefect", prefect_settings)])
                          [("project", VTable [("name", VString "demo")])]))]>
          (fs online_installed))
       (trace online_installed ++
          [EvOpen ((cwd online_created ++ ["demo"]) ++ ["pyproject.toml"])
                  ModeR;
           EvOpen ((cwd online_created ++ ["demo"]) ++ ["pyproject.toml"])
                  ModeW;
           EvPrint "demo" (cwd online_created ++ ["demo"]);
           EvChdir (cwd online_created)]))
  ∧ exit_status (init spawn_online "demo" sample_world).1 = 0%Z.
Proof.
  apply (init_succeeds spawn_online "demo" sample_world online_created
           online_copied online_installed
           [("project", VTable [("name", VString "demo")])]).
  - vm_compute. reflexivity.
  - vm_compute. reflexivity.
  - vm_compute. reflexivity.
  - vm_compute. reflexivity.
  - vm_compute. reflexivity.
  - vm_compute. reflexivity.
  - vm_compute. reflexivity.
Defined.
